(** * lazy.py: deferred, grouped imports

    A shallow embedding of [lazy.py] (class [LazyImportGroup], class
    [VeryLazyModule], [real_module], [VeryLazyLoader], [VeryLazyFinder] and
    [pip]) together with the parts of the Python run time the file leans on:
    [sys.modules], [sys.meta_path], attribute lookup on module objects,
    [importlib.import_module], [importlib.util.find_spec] and the values
    that [json.load] returns.

    Python objects have identity and are mutated in place, so modules and
    groups live in a store and are referred to by address.  Everything that
    happens outside the interpreter (the [pip] subprocess, the files it
    writes, resource lookup, the genuine modules found on disk) is supplied
    by a [Host]. *)

From Stdlib Require Import ZArith Ascii.
From stdpp Require Import gmap strings list fin_maps.

Set Warnings "-clear-no-such-hyp,-register-all".


(** ** Values and objects *)

(** Addresses of module objects and of [LazyImportGroup] objects. *)
Abbreviation loc := nat.
Abbreviation gid := nat.

Inductive loader := VeryLazyLoader | HostLoader.

(** [importlib.machinery.ModuleSpec(name, loader, loader_state, is_package)] *)
Record ModuleSpec := {
  spec_name : string;
  spec_loader : loader;
  loader_state : option gid;
  is_package : bool
}.

Inductive value :=
| VNone
| VStr (s : string)
| VPath (entries : list string)
| VObject (id : nat)
| VLoader (l : loader)
| VSpec (s : ModuleSpec)
| VModule (m : loc).

#[global] Instance loader_eq_dec : EqDecision loader.
Proof. solve_decision. Defined.
#[global] Instance ModuleSpec_eq_dec : EqDecision ModuleSpec.
Proof. solve_decision. Defined.
#[global] Instance value_eq_dec : EqDecision value.
Proof. solve_decision. Defined.

(** The two classes a module object can have: [types.ModuleType] and its
    subclass [VeryLazyModule]. *)
Inductive pyclass := ModuleType | VeryLazyModule.

Record module_obj := {
  m_class : pyclass;
  m_dict : gmap string value
}.

(** An entry of [sys.modules]: a module, or [None], which halts imports. *)
Inductive entry :=
| Halted
| Loaded (m : loc).

#[global] Instance entry_eq_dec : EqDecision entry.
Proof. solve_decision. Defined.

(** The attributes of a [LazyImportGroup] ([self.finder] is the finder of
    this group and is identified by the group's address).  [modules] is a
    Python dict: insertion ordered, one entry per key. *)
Record LazyImportGroup := {
  requires : string;
  name : option string;
  modules : list (string * loc);
  need_install : bool
}.

Inductive finder :=
| VeryLazyFinder (group : gid)
| PathFinder.

#[global] Instance finder_eq_dec : EqDecision finder.
Proof. solve_decision. Defined.

(** ** The world outside the interpreter *)

(** A value as [json.load] returns it.  [resolve] subscripts such values
    with a string, iterates over them, tests them for truth and formats
    them.  [JOther] is [None], a bool or a number, with its truth value;
    [shown] is what [str()] makes of a value that is not a string. *)
Inductive json :=
| JString (s : string)
| JOther (shown : string) (truth : bool)
| JArray (shown : string) (items : list json)
| JObject (shown : string) (fields : list (string * json)).

(** [str(v)] *)
Definition py_str (v : json) : string :=
  match v with
  | JString s => s
  | JOther shown _ | JArray shown _ | JObject shown _ => shown
  end.

(** [bool(v)]: a string, a list and a dict are true unless empty. *)
Definition truthy (v : json) : bool :=
  match v with
  | JString s => if s is EmptyString then false else true
  | JOther _ truth => truth
  | JArray _ items => if items is [] then false else true
  | JObject _ fields => if fields is [] then false else true
  end.

(** [repr(v)] for the two builders below; for a string this is the text
    Python shows when the string has no quotes, backslashes or control
    characters. *)
Definition py_repr (v : json) : string :=
  match v with
  | JString s => "'" +:+ s +:+ "'"
  | _ => py_str v
  end.

Fixpoint join (sep : string) (parts : list string) : string :=
  match parts with
  | [] => ""
  | [part] => part
  | part :: rest => part +:+ sep +:+ join sep rest
  end.

Definition jarray (items : list json) : json :=
  JArray ("[" +:+ join ", " (py_repr <$> items) +:+ "]") items.

Definition jobject (fields : list (string * json)) : json :=
  JObject ("{" +:+ join ", " ((λ kv, "'" +:+ kv.1 +:+ "': " +:+ py_repr kv.2) <$> fields)
               +:+ "}") fields.

(** What a file holds for [json.load]: a JSON document, or something
    [json.load] cannot decode (an empty file, for one). *)
Inductive file_content :=
| NotJson
| Json (v : json).

(** The ["metadata"] of a well-formed entry of the ["install"] list of pip's
    report, as far as [resolve] reads it: [name], [version] and [summary],
    all of them strings. *)
Record metadata := {
  md_name : string;
  md_version : string;
  md_summary : string
}.

Definition metadata_json (e : metadata) : json :=
  jobject [("name", JString (md_name e)); ("version", JString (md_version e));
           ("summary", JString (md_summary e))].

Definition entry_json (e : metadata) : json :=
  jobject [("metadata", metadata_json e)].

(** A well-formed report: [{"install": [{"metadata": {...}}, ...]}]. *)
Definition Report (install : list metadata) : file_content :=
  Json (jobject [("install", jarray (entry_json <$> install))]).

(** What a finished subprocess leaves behind. *)
Record completed_process := {
  returncode : Z;
  written : gmap string file_content
}.

(** A genuine module as the ordinary finders see it. *)
Record host_module := {
  hm_is_package : bool;
  hm_body : gmap string value
}.

Class Host := {
  (** [files(dummy).joinpath(req)] and [as_file] for the dummy of a genuine
      package: the path of the resource on disk (a directory on disk gives a
      path whether or not the file exists), or [None] when the package
      cannot hand the resource out as a file. *)
  host_locate : string → string → option string;
  (** the name of the file made by [tempfile.NamedTemporaryFile] *)
  host_tmpfile : string;
  (** [subprocess.run(cmd)] after the earlier invocations: [None] when the
      program cannot be started. *)
  host_run : list (list string) → list string → option completed_process;
  (** the genuine module of that name, if the ordinary finders have one *)
  host_find_spec : string → option host_module
}.

(** ** Interpreter state *)

Record State := {
  sys_modules : gmap string entry;
  sys_meta_path : list finder;
  heap : gmap loc module_obj;
  groups : gmap gid LazyImportGroup;
  procs : list (list string);
  files : gmap string file_content;
  stdout : list string
}.

Definition set_sys_modules (f : gmap string entry → gmap string entry) (st : State) : State :=
  {| sys_modules := f (sys_modules st); sys_meta_path := sys_meta_path st;
     heap := heap st; groups := groups st; procs := procs st;
     files := files st; stdout := stdout st |}.

Definition set_sys_meta_path (f : list finder → list finder) (st : State) : State :=
  {| sys_modules := sys_modules st; sys_meta_path := f (sys_meta_path st);
     heap := heap st; groups := groups st; procs := procs st;
     files := files st; stdout := stdout st |}.

Definition set_heap (f : gmap loc module_obj → gmap loc module_obj) (st : State) : State :=
  {| sys_modules := sys_modules st; sys_meta_path := sys_meta_path st;
     heap := f (heap st); groups := groups st; procs := procs st;
     files := files st; stdout := stdout st |}.

Definition set_groups (f : gmap gid LazyImportGroup → gmap gid LazyImportGroup) (st : State) : State :=
  {| sys_modules := sys_modules st; sys_meta_path := sys_meta_path st;
     heap := heap st; groups := f (groups st); procs := procs st;
     files := files st; stdout := stdout st |}.

Definition set_procs (f : list (list string) → list (list string)) (st : State) : State :=
  {| sys_modules := sys_modules st; sys_meta_path := sys_meta_path st;
     heap := heap st; groups := groups st; procs := f (procs st);
     files := files st; stdout := stdout st |}.

Definition set_files (f : gmap string file_content → gmap string file_content) (st : State) : State :=
  {| sys_modules := sys_modules st; sys_meta_path := sys_meta_path st;
     heap := heap st; groups := groups st; procs := procs st;
     files := f (files st); stdout := stdout st |}.

Definition set_stdout (f : list string → list string) (st : State) : State :=
  {| sys_modules := sys_modules st; sys_meta_path := sys_meta_path st;
     heap := heap st; groups := groups st; procs := procs st;
     files := files st; stdout := f (stdout st) |}.

(** A fresh interpreter: nothing imported, only the ordinary finder. *)
Definition initial : State :=
  {| sys_modules := ∅; sys_meta_path := [PathFinder]; heap := ∅; groups := ∅;
     procs := []; files := ∅; stdout := [] |}.

(** ** Exceptions and the monad of statements *)

Inductive exn :=
| KeyError (key : string)
| AttributeError (attr : string)
| ValueError
| TypeError
| OSError
| JSONDecodeError
| RecursionError
  (** [importlib.resources] cannot hand out the resource [req] of the package
      found for [pak] (the [FileNotFoundError] of [as_file]) *)
| ResourceError (pak req : string)
  (** ModuleNotFoundError: import of {name} halted; None in sys.modules *)
| ImportHalted (fullname : string)
  (** ModuleNotFoundError: No module named {name} *)
| ModuleNotFoundError (fullname : string)
  (** a reference to an object that is not in the store; Python has no
      dangling references, so no run of the program produces it *)
| Dangling.

#[global] Instance exn_eq_dec : EqDecision exn.
Proof. solve_decision. Defined.

Inductive outcome (A : Type) :=
| Ok (a : A)
| Raise (e : exn).
Arguments Ok {A} a.
Arguments Raise {A} e.

(** A statement runs in a state and ends in a state, with a result or with
    an exception; the mutations made before an exception stay. *)
Definition M (A : Type) : Type := State → outcome A * State.

#[global] Instance M_ret : MRet M := λ A a st, (Ok a, st).
#[global] Instance M_bind : MBind M := λ A B f m st,
  match m st with
  | (Ok a, st') => f a st'
  | (Raise e, st') => (Raise e, st')
  end.

Definition raise {A} (e : exn) : M A := λ st, (Raise e, st).
Definition get : M State := λ st, (Ok st, st).
Definition modify (f : State → State) : M unit := λ st, (Ok tt, f st).

(** [try: body finally: cleanup], as the exit of a [with] block uses it. *)
Definition finally {A} (body : M A) (cleanup : M unit) : M A := λ st,
  match body st with
  | (r, st') =>
      match cleanup st' with
      | (Ok _, st'') => (r, st'')
      | (Raise e, st'') => (Raise e, st'')
      end
  end.

(** [try: body except: cleanup; raise] *)
Definition on_exception {A} (body : M A) (cleanup : State → State) : M A := λ st,
  match body st with
  | (Ok a, st') => (Ok a, st')
  | (Raise e, st') => (Raise e, cleanup st')
  end.

Definition get_group (g : gid) : M LazyImportGroup := λ st,
  match groups st !! g with
  | Some G => (Ok G, st)
  | None => (Raise Dangling, st)
  end.

Definition get_module (m : loc) : M module_obj := λ st,
  match heap st !! m with
  | Some o => (Ok o, st)
  | None => (Raise Dangling, st)
  end.

(** ** Strings and dicts *)

(** [s.rpartition(sep)] for a one-character separator: the parts before and
    after the last [sep], when there is one. *)
Fixpoint rsplit (sep : Ascii.ascii) (s : string) : option (string * string) :=
  match s with
  | EmptyString => None
  | String c rest =>
      match rsplit sep rest with
      | Some (before, after) => Some (String c before, after)
      | None => if Ascii.eqb c sep then Some (EmptyString, rest) else None
      end
  end.

(** [head, _, tail = s.rpartition(sep)]; without a separator the head is
    empty and the tail is [s]. *)
Definition rpartition (sep : Ascii.ascii) (s : string) : string * string :=
  match rsplit sep s with
  | Some parts => parts
  | None => (EmptyString, s)
  end.

(** [d[k] = v] on an insertion-ordered dict. *)
Fixpoint dict_set {V} (k : string) (v : V) (d : list (string * V)) : list (string * V) :=
  match d with
  | [] => [(k, v)]
  | (k', v') :: d' =>
      if decide (k' = k) then (k, v) :: d' else (k', v') :: dict_set k v d'
  end.

(** The characters of a string, each a string of its own. *)
Fixpoint characters (s : string) : list string :=
  match s with
  | EmptyString => []
  | String c rest => String c EmptyString :: characters rest
  end.

(** [d[k]] on such a dict, if it has the key. *)
Fixpoint dict_get {V} (k : string) (d : list (string * V)) : option V :=
  match d with
  | [] => None
  | (k', v') :: d' => if decide (k' = k) then Some v' else dict_get k d'
  end.

(** ** [pip] *)

Section program.
Context `{Host}.

(** <<
def pip(args):
    subprocess.run(["pip"] + args, stdout=subprocess.PIPE)
>>
    The [CompletedProcess] that [subprocess.run] returns is dropped, and
    [check] is not set: the return code is read nowhere. *)
Definition pip (args : list string) : M unit := λ st,
  let cmd := "pip" :: args in
  match host_run (procs st) cmd with
  | None => (Raise OSError, st)
  | Some p => (Ok tt, set_files (λ fs, written p ∪ fs) (set_procs (λ ps, ps ++ [cmd]) st))
  end.

Definition EXTRA_PIP_ARGS : list string := ["--quiet"].

(** The two command lines of [resolve]. *)
Definition dry_run_args (freport requires_path : string) : list string :=
  ["install"] ++ EXTRA_PIP_ARGS ++
  ["--dry-run"; "--no-deps"; "--report"; freport; "-r"; requires_path].

Definition install_args (requires_path : string) : list string :=
  ["install"] ++ EXTRA_PIP_ARGS ++ ["-r"; requires_path].

(** ** Finders *)

(** [VeryLazyFinder.find_spec]: a dummy spec for every name, never [None]. *)
Definition find_spec (group : gid) (fullname : string) : ModuleSpec :=
  {| spec_name := fullname; spec_loader := VeryLazyLoader;
     loader_state := Some group; is_package := true |}.

Definition host_spec (fullname : string) (hm : host_module) : ModuleSpec :=
  {| spec_name := fullname; spec_loader := HostLoader;
     loader_state := None; is_package := hm_is_package hm |}.

(** The finders of [sys.meta_path] are asked in order; the first spec wins. *)
Fixpoint _find_spec (fullname : string) (meta_path : list finder) : option ModuleSpec :=
  match meta_path with
  | [] => None
  | VeryLazyFinder g :: _ => Some (find_spec g fullname)
  | PathFinder :: rest =>
      match host_find_spec fullname with
      | Some hm => Some (host_spec fullname hm)
      | None => _find_spec fullname rest
      end
  end.

(** ** [LazyImportGroup] *)

(** [LazyImportGroup(requires, name)]: a new group object. *)
Definition __init__ (requires0 : string) (name0 : option string) : M gid := λ st,
  let g := fresh (dom (groups st)) in
  (Ok g, set_groups <[g := {| requires := requires0; name := name0;
                              modules := []; need_install := true |}]> st).

(** [sys.meta_path.insert(0, self.finder)] *)
Definition __enter__ (g : gid) : M unit :=
  modify (set_sys_meta_path (λ mp, VeryLazyFinder g :: mp)).

(** [list.remove(x)]: drops the first occurrence. *)
Fixpoint list_remove (x : finder) (l : list finder) : option (list finder) :=
  match l with
  | [] => None
  | y :: l' => if decide (y = x) then Some l' else cons y <$> list_remove x l'
  end.

(** [self.modules[module.__spec__.name] = module] *)
Definition register (g : gid) (module : loc) : M unit :=
  o ← get_module module;
  match m_dict o !! "__spec__" with
  | Some (VSpec spec) =>
      G ← get_group g;
      modify (set_groups <[g := {| requires := requires G; name := name G;
                                   modules := dict_set (spec_name spec) module (modules G);
                                   need_install := need_install G |}]>)
  | Some _ => raise (AttributeError "name")
  | None => raise (AttributeError "__spec__")
  end.

(** <<
for name, module in self.modules.items():
    if sys.modules[name] is module:
        sys.modules[name] = None
>>
    [sys.modules[name]] raises [KeyError] for a name that is not a key; what
    the loop did before that stays done. *)
Fixpoint lock_items (items : list (string * loc)) (reg : gmap string entry)
  : outcome unit * gmap string entry :=
  match items with
  | [] => (Ok tt, reg)
  | (n, module) :: rest =>
      match reg !! n with
      | None => (Raise (KeyError n), reg)
      | Some e =>
          if decide (e = Loaded module)
          then lock_items rest (<[n := Halted]> reg)
          else lock_items rest reg
      end
  end.

Definition lock (g : gid) : M unit := λ st,
  match groups st !! g with
  | None => (Raise Dangling, st)
  | Some G =>
      let '(r, reg) := lock_items (modules G) (sys_modules st) in
      (r, set_sys_modules (λ _, reg) st)
  end.

(** <<
for name in self.modules:
    if name in sys.modules and sys.modules[name] is None:
        del sys.modules[name]
>> *)
Fixpoint unlock_names (names : list string) (reg : gmap string entry)
  : gmap string entry :=
  match names with
  | [] => reg
  | n :: rest =>
      match reg !! n with
      | Some Halted => unlock_names rest (delete n reg)
      | _ => unlock_names rest reg
      end
  end.

Definition unlock (g : gid) : M unit :=
  G ← get_group g;
  modify (set_sys_modules (unlock_names (modules G).*1)).

(** <<
sys.meta_path.remove(self.finder)
self.lock()
>> *)
Definition __exit__ (g : gid) : M unit :=
  st ← get;
  match list_remove (VeryLazyFinder g) (sys_meta_path st) with
  | None => raise ValueError
  | Some mp => modify (set_sys_meta_path (λ _, mp)) ;; lock g
  end.

(** [with NamedTemporaryFile("r") as freport: body]: the file exists, empty,
    while the body runs, and is removed when the block is left. *)
Definition NamedTemporaryFile {A} (body : string → M A) : M A :=
  modify (set_files <[host_tmpfile := NotJson]>) ;;
  finally (body host_tmpfile) (modify (set_files (delete host_tmpfile))).

(** [json.load(freport)] *)
Definition json_load (path : string) : M json := λ st,
  match files st !! path with
  | Some (Json v) => (Ok v, st)
  | _ => (Raise JSONDecodeError, st)
  end.

(** [v[key]] for a string [key]: only a dict can be subscripted with one. *)
Definition getitem (v : json) (key : string) : M json :=
  match v with
  | JObject _ fields =>
      match dict_get key fields with
      | Some x => mret x
      | None => raise (KeyError key)
      end
  | _ => raise TypeError
  end.

(** What [for entry in v] goes through: the items of a list, the keys of a
    dict, the characters of a string. *)
Definition iterate (v : json) : M (list json) :=
  match v with
  | JArray _ items => mret items
  | JObject _ fields => mret (JString <$> fields.*1)
  | JString s => mret (JString <$> characters s)
  | JOther _ _ => raise TypeError
  end.

(** ["installing {name}=={version} ({summary})".format_map(md)]: the fields
    are looked up in [md] in the order of the format string. *)
Definition format_map (md : json) : M string :=
  n ← getitem md "name";
  v ← getitem md "version";
  s ← getitem md "summary";
  mret ("installing " +:+ py_str n +:+ "==" +:+ py_str v +:+ " (" +:+ py_str s +:+ ")").


Definition print (line : string) : M unit :=
  modify (set_stdout (λ out, out ++ [line])).


(** <<
for entry in entries:
    print("installing {name}=={version} ({summary})".format_map(entry["metadata"]))
>> *)
Fixpoint print_entries (entries : list json) : M unit :=
  match entries with
  | [] => mret tt
  | entry :: rest =>
      md ← getitem entry "metadata";
      line ← format_map md;
      print line ;;
      print_entries rest
  end.

(** [importlib.util.find_spec(name)]: the [__spec__] of the module that
    [sys.modules] has under the name ([ValueError] when it is [None] or not
    set; it is read from the namespace, where the import system puts it for
    every module it makes), [None] when the entry of [sys.modules] is
    [None], and otherwise what the finders of [sys.meta_path] say, [None]
    when none of them knows the name.  For a dotted name that [sys.modules]
    does not have, [find_spec] imports the parent package first; that import
    is left out here, as it is in [import_module] below: the model is exact
    for top-level names and for names whose parent package is imported
    already. *)
Definition util_find_spec (name : string) : M value := λ st,
  match sys_modules st !! name with
  | Some Halted => (Ok VNone, st)
  | Some (Loaded m) =>
      match heap st !! m with
      | Some o =>
          match m_dict o !! "__spec__" with
          | Some VNone | None => (Raise ValueError, st)
          | Some spec => (Ok spec, st)
          end
      | None => (Raise Dangling, st)
      end
  | None =>
      match _find_spec name (sys_meta_path st) with
      | Some spec => (Ok (VSpec spec), st)
      | None => (Ok VNone, st)
      end
  end.

(** [importlib.util.module_from_spec(spec)] as [resolve] uses it: it reads
    [spec.loader] first, which [None] does not have.  The dummy module it
    makes carries nothing but its [__spec__], is entered nowhere and is
    dropped when [resolve] returns, so it is not put in the store. *)
Definition dummy_from_spec (spec : value) : M ModuleSpec :=
  match spec with
  | VSpec s => mret s
  | _ => raise (AttributeError "loader")
  end.

(** <<
spec = importlib.util.find_spec(pak)
dummy = importlib.util.module_from_spec(spec)
resource = importlib.resources.files(dummy).joinpath(req)
with importlib.resources.as_file(resource) as requires:
>>
    [files] refuses a module that is no package with a [TypeError]; a
    package whose loader has no resources, as [VeryLazyLoader], has no file
    for [as_file]. *)
Definition locate (pak req : string) : M string :=
  found ← util_find_spec pak;
  spec ← dummy_from_spec found;
  if negb (is_package spec) then raise TypeError else
  match spec_loader spec, host_locate (spec_name spec) req with
  | HostLoader, Some path => mret path
  | _, _ => raise (ResourceError pak req)
  end.

Definition set_need_install (b : bool) (G : LazyImportGroup) : LazyImportGroup :=
  {| requires := requires G; name := name G; modules := modules G; need_install := b |}.

(** [LazyImportGroup.resolve] *)
Definition resolve (g : gid) : M unit :=
  G ← get_group g;
  if negb (need_install G) then mret tt else
  let '(pak, req) := rpartition ":"%char (requires G) in
  requires_path ← locate pak req;
  report ← NamedTemporaryFile (λ freport,
              pip (dry_run_args freport requires_path) ;;
              json_load freport);
  (* for entry in report["install"]: print(...) *)
  install ← getitem report "install";
  entries ← iterate install;
  print_entries entries ;;
  (* if report["install"]: pip([...]) *)
  install' ← getitem report "install";
  (if truthy install' then pip (install_args requires_path) else mret tt) ;;
  modify (set_groups (alter (set_need_install false) g)).

(** ** Finder, loader and the import machinery *)

(** The import attributes [module_from_spec] gives a new module. *)
Definition init_module_attrs (spec : ModuleSpec) : gmap string value :=
  let parent := if is_package spec then spec_name spec
                else (rpartition "."%char (spec_name spec)).1 in
  let attrs : gmap string value :=
    {[ "__name__" := VStr (spec_name spec); "__doc__" := VNone;
       "__package__" := VStr parent; "__loader__" := VLoader (spec_loader spec);
       "__spec__" := VSpec spec ]} in
  if is_package spec then <["__path__" := VPath []]> attrs else attrs.

Definition module_from_spec (spec : ModuleSpec) : M loc := λ st,
  let m := fresh (dom (heap st)) in
  (Ok m, set_heap <[m := {| m_class := ModuleType; m_dict := init_module_attrs spec |}]> st).

Definition set_class (c : pyclass) (o : module_obj) : module_obj :=
  {| m_class := c; m_dict := m_dict o |}.

Definition set_dict (f : gmap string value → gmap string value) (o : module_obj) : module_obj :=
  {| m_class := m_class o; m_dict := f (m_dict o) |}.

(** <<
module.__class__ = VeryLazyModule
module.__spec__.loader_state.register(module)
>>
    The machinery calls it on a module fresh from [module_from_spec], whose
    [__spec__] is set. *)
Definition exec_module (module : loc) : M unit :=
  o ← get_module module;
  modify (set_heap (alter (set_class VeryLazyModule) module)) ;;
  match m_dict o !! "__spec__" with
  | Some (VSpec spec) =>
      match loader_state spec with
      | Some g => register g module
      | None => raise (AttributeError "register")
      end
  | Some _ => raise (AttributeError "loader_state")
  | None => raise (AttributeError "__spec__")
  end.

(** Running the genuine module: its body fills the namespace. *)
Definition host_exec_module (fullname : string) (module : loc) : M unit :=
  match host_find_spec fullname with
  | Some hm => modify (set_heap (alter (set_dict (λ d, hm_body hm ∪ d)) module))
  | None => raise (ModuleNotFoundError fullname)
  end.

(** The module is entered into [sys.modules] before it is executed, and
    taken out again if its execution raises. *)
Definition _load (spec : ModuleSpec) : M loc :=
  module ← module_from_spec spec;
  modify (set_sys_modules <[spec_name spec := Loaded module]>) ;;
  on_exception
    (match spec_loader spec with
     | VeryLazyLoader => exec_module module
     | HostLoader => host_exec_module (spec_name spec) module
     end)
    (set_sys_modules (delete (spec_name spec))) ;;
  mret module.

(** [importlib.import_module(name)] for an absolute name, which is also what
    the statement [import name] does: the entry of [sys.modules] if there is
    one, an error if that entry is [None], the finders otherwise.  (The
    machinery imports the parent packages of a dotted name first; that is
    left out.) *)
Definition import_module (fullname : string) : M loc := λ st,
  match sys_modules st !! fullname with
  | Some (Loaded m) => (Ok m, st)
  | Some Halted => (Raise (ImportHalted fullname), st)
  | None =>
      match _find_spec fullname (sys_meta_path st) with
      | Some spec => _load spec st
      | None => (Raise (ModuleNotFoundError fullname), st)
      end
  end.

(** [with group: body] *)
Definition with_ {A} (g : gid) (body : M A) : M A :=
  __enter__ g ;; finally body (__exit__ g).

(** ** [VeryLazyModule] *)

(** [VeryLazyModule.__getattr__(self, attr)].  The attribute reads on [self]
    in its body ([self.__spec__], and the closing [getattr(self, attr)]) go
    through the interpreter's attribute lookup, which is passed in. *)
Definition __getattr__ (getattr : loc → string → M value)
    (self : loc) (attr : string) : M value :=
  (* self.__class__ = types.ModuleType *)
  get_module self ;;
  modify (set_heap (alter (set_class ModuleType) self)) ;;
  (* group: LazyImportGroup = self.__spec__.loader_state *)
  spec ← getattr self "__spec__";
  group ← match spec with
           | VSpec s => mret (loader_state s)
           | _ => raise (AttributeError "loader_state")
           end;
  (* group.unlock(); group.resolve() *)
  match group with
  | Some g => unlock g ;; resolve g
  | None => raise (AttributeError "unlock")
  end ;;
  (* self.__real_module__ = importlib.import_module(self.__spec__.name) *)
  spec' ← getattr self "__spec__";
  fullname ← match spec' with
              | VSpec s => mret (spec_name s)
              | _ => raise (AttributeError "name")
              end;
  real ← import_module fullname;
  modify (set_heap (alter (set_dict <["__real_module__" := VModule real]>) self)) ;;
  (* self.__dict__.update(self.__real_module__.__dict__) *)
  o ← get_module real;
  modify (set_heap (alter (set_dict (λ d, m_dict o ∪ d)) self)) ;;
  (* return getattr(self, attr) *)
  getattr self attr.

(** [getattr(obj, attr)] on a module object: the namespace first, then the
    class's [__getattr__] if it has one.  [depth] bounds the nesting of
    [__getattr__] calls, as the interpreter's recursion limit does. *)
Fixpoint getattr (depth : nat) (obj : loc) (attr : string) : M value := λ st,
  match heap st !! obj with
  | None => (Raise Dangling, st)
  | Some o =>
      match m_dict o !! attr with
      | Some v => (Ok v, st)
      | None =>
          match m_class o, depth with
          | ModuleType, _ => (Raise (AttributeError attr), st)
          | VeryLazyModule, S d => __getattr__ (getattr d) obj attr st
          | VeryLazyModule, O => (Raise RecursionError, st)
          end
      end
  end.

(** <<
def real_module(module):
    return getattr(module, "__real_module__", module)
>>
    The three-argument [getattr] turns an [AttributeError] into the default
    and lets every other exception through. *)
Definition real_module (depth : nat) (module : value) : M value :=
  match module with
  | VModule m => λ st,
      match getattr depth m "__real_module__" st with
      | (Raise (AttributeError _), st') => (Ok module, st')
      | r => r
      end
  | _ => mret module
  end.

End program.

(** ** Observations used in the statements *)

(** The invocation [pip install --quiet -r path], as opposed to the dry run. *)
Definition is_real_install (cmd : list string) : bool :=
  match cmd with
  | prog :: args =>
      match last args with
      | Some path => bool_decide (prog = "pip" ∧ args = install_args path)
      | None => false
      end
  | [] => false
  end.

(** How many real installations the host has been asked for so far. *)
Definition installs (st : State) : nat :=
  length (filter (λ cmd, is_real_install cmd) (procs st)).

(** [resolve()] called [n] times in a row, whatever each call ends in. *)
Fixpoint resolve_times `{Host} (n : nat) (g : gid) (st : State) : State :=
  match n with
  | O => st
  | S k => resolve_times k g (resolve g st).2
  end.

(** The [need_install] attribute of the group at [g]. *)
Definition need_install_of (g : gid) (st : State) : option bool :=
  need_install <$> groups st !! g.

(** [import a; import b; ...] *)
Fixpoint import_all `{Host} (names : list string) : M unit :=
  match names with
  | [] => mret tt
  | n :: rest => import_module n ;; import_all rest
  end.

(** A proxy that has not been used yet: the object [o] at [p] is a
    [VeryLazyModule] whose [__spec__] belongs to the group [g]. *)
Definition pending (st : State) (p : loc) (o : module_obj) (spec : ModuleSpec) (g : gid) : Prop :=
  heap st !! p = Some o ∧ m_class o = VeryLazyModule ∧
  m_dict o !! "__spec__" = Some (VSpec spec) ∧ loader_state spec = Some g.

(** A call into the module, as a client can make it. *)
Inductive call :=
| CallInit (requires0 : string) (name0 : option string)
| CallEnter (g : gid)
| CallExit (g : gid)
| CallRegister (g : gid) (module : loc)
| CallLock (g : gid)
| CallUnlock (g : gid)
| CallResolve (g : gid)
| CallImport (fullname : string)
| CallGetattr (depth : nat) (obj : loc) (attr : string)
| CallRealModule (depth : nat) (module : value).

(** The state a call leaves, whether it returns or raises. *)
Definition run_call `{Host} (c : call) (st : State) : State :=
  match c with
  | CallInit requires0 name0 => (__init__ requires0 name0 st).2
  | CallEnter g => (__enter__ g st).2
  | CallExit g => (__exit__ g st).2
  | CallRegister g module => (register g module st).2
  | CallLock g => (lock g st).2
  | CallUnlock g => (unlock g st).2
  | CallResolve g => (resolve g st).2
  | CallImport fullname => (import_module fullname st).2
  | CallGetattr depth obj attr => (getattr depth obj attr st).2
  | CallRealModule depth module => (real_module depth module st).2
  end.

Definition run_calls `{Host} (cs : list call) (st : State) : State :=
  foldl (λ st c, run_call c st) st cs.

(** A group that is resolved in [st] is resolved in [st']. *)
Definition keeps_resolved (st st' : State) : Prop :=
  ∀ g, need_install_of g st = Some false → need_install_of g st' = Some false.

(** A statement that never turns [need_install] back to true. *)
Definition preserves {A} (op : M A) : Prop :=
  ∀ st r st', op st = (r, st') → keeps_resolved st st'.

(** ** The steps of a first use *)

(** The three writes [__getattr__] makes to [self]. *)
Definition relinquish (self : loc) : State → State :=
  set_heap (alter (set_class ModuleType) self).

Definition record_real (self real : loc) : State → State :=
  set_heap (alter (set_dict <["__real_module__" := VModule real]>) self).

Definition merge_real (self : loc) (real_obj : module_obj) : State → State :=
  set_heap (alter (set_dict (λ d, m_dict real_obj ∪ d)) self).

(** The proxy object once the real module has been recorded and merged. *)
Definition used_proxy (o ro : module_obj) (real : loc) : module_obj :=
  set_dict (λ d, m_dict ro ∪ d)
    (set_dict <["__real_module__" := VModule real]> (set_class ModuleType o)).

(** [n] is a member of the group [g] and [sys.modules] still maps it to the
    member. *)
Definition registered (g : gid) (st : State) (n : string) : Prop :=
  ∃ m G, groups st !! g = Some G ∧ (n, m) ∈ modules G ∧
         sys_modules st !! n = Some (Loaded m).

(** Two hosts that differ at most in the return codes of the processes they
    run. *)
Definition same_but_returncode (H1 H2 : Host) : Prop :=
  (∀ pak req, @host_locate H1 pak req = @host_locate H2 pak req) ∧
  @host_tmpfile H1 = @host_tmpfile H2 ∧
  (∀ ps cmd, written <$> @host_run H1 ps cmd = written <$> @host_run H2 ps cmd) ∧
  (∀ n, @host_find_spec H1 n = @host_find_spec H2 n).

(** ** Observations for whole groups and runs *)




(** Every member of the group [g] is in [sys.modules] under its name and is
    a pending proxy of the group. *)
Definition members_pending (g : gid) (st : State) : Prop :=
  ∃ G, groups st !! g = Some G ∧
       ∀ n m, (n, m) ∈ modules G →
              sys_modules st !! n = Some (Loaded m) ∧
              ∃ o, pending st m o (find_spec g n) g.

(** Whether the character occurs in the string. *)
Fixpoint occurs (c : ascii) (s : string) : bool :=
  match s with
  | EmptyString => false
  | String c' rest => Ascii.eqb c' c || occurs c rest
  end.

(** The [need_install] attributes of all groups. *)
Definition flags (st : State) : gmap gid bool := need_install <$> groups st.

(** How many groups still have [need_install] set. *)
Definition unresolved (st : State) : nat :=
  size (filter (λ kv : gid * bool, kv.2 = true) (flags st)).

(** Whether the call is [LazyImportGroup(...)]. *)
Definition makes_group (c : call) : bool :=
  match c with CallInit _ _ => true | _ => false end.

(** How many groups a sequence of calls makes. *)
Definition groups_made (cs : list call) : nat :=
  length (filter (λ c, makes_group c) cs).

(** A statement that starts a real installation only for a group that it
    also resolves. *)
Definition frugal {A} (op : M A) : Prop :=
  ∀ st r st', op st = (r, st') →
    installs st' + unresolved st' ≤ installs st + unresolved st.

(** ** Example hosts and runs *)

Definition fuzzywuzzy : metadata :=
  {| md_name := "fuzzywuzzy"; md_version := "0.18.0";
     md_summary := "Fuzzy string matching in python" |}.

Definition is_dry_run (cmd : list string) : bool :=
  bool_decide ("--dry-run" ∈ cmd).

(** A host that finds [pak:requirements.txt], whose dry run leaves the given
    report, whose real installation exits with the given status, and that
    knows the given modules. *)
Definition make_host (report : list (list string) → file_content) (status : Z)
    (mods : string → option host_module) : Host :=
  {| host_locate pak req :=
       if decide (pak = "pak" ∧ req = "requirements.txt")
       then Some "/site/pak/requirements.txt" else None;
     host_tmpfile := "/tmp/report";
     host_run ps cmd :=
       Some (if is_dry_run cmd
             then {| returncode := 0; written := {[ "/tmp/report" := report ps ]} |}
             else {| returncode := status; written := ∅ |});
     host_find_spec := mods |}.

Definition pak_only (body : gmap string value) (n : string) : option host_module :=
  if decide (n = "pak") then Some {| hm_is_package := true; hm_body := body |} else None.

(** The host of the doctests: one package to install, and the module [pak]. *)
Definition demo_host : Host :=
  make_host (λ _, Report [fuzzywuzzy]) 0 (pak_only {[ "dopak" := VObject 7 ]}).

(** The real installation exits with status 1. *)
Definition failing_host : Host :=
  make_host (λ _, Report [fuzzywuzzy]) 1 (pak_only {[ "dopak" := VObject 7 ]}).


(** The first dry run leaves no report, the later ones do. *)
Definition flaky_host : Host :=
  make_host (λ ps, if ps is [] then NotJson else Report [fuzzywuzzy]) 0
    (pak_only {[ "dopak" := VObject 7 ]}).

(** [pak] has an attribute called [__real_module__] of its own. *)
Definition colliding_host : Host :=
  make_host (λ _, Report [fuzzywuzzy]) 0
    (pak_only {[ "dopak" := VObject 7; "__real_module__" := VObject 9 ]}).

(** <<
with LazyImportGroup("pak:requirements.txt"):
    import pak
    import ghost
>>
    in a fresh interpreter: the group is object 0, the proxies of [pak] and
    [ghost] are the modules 0 and 1.  No host is consulted. *)
Definition locked_state : State :=
  ((g ← __init__ "pak:requirements.txt" None;
    with_ g (import_all (H:=demo_host) ["pak"; "ghost"])) initial).2.

Definition pak_group : LazyImportGroup :=
  {| requires := "pak:requirements.txt"; name := None;
     modules := [("pak", 0); ("ghost", 1)]; need_install := true |}.

Definition pak_proxy : module_obj :=
  {| m_class := VeryLazyModule; m_dict := init_module_attrs (find_spec 0 "pak") |}.

Definition ghost_proxy : module_obj :=
  {| m_class := VeryLazyModule; m_dict := init_module_attrs (find_spec 0 "ghost") |}.

(** [group.unlock()] after the block: [pak] and [ghost] can be looked for
    again.  This is where [__getattr__] calls [resolve()]. *)
Definition unlocked_state : State := (unlock 0 locked_state).2.

(** [pak.dopak] after that, on the host of the doctests. *)
Definition used_state : State :=
  (getattr (H:=demo_host) 1 0 "dopak" locked_state).2.

(** The group is entered again and [msgpack] imported, the scope still
    open: its proxy is module 3. *)
Definition reentered_state : State :=
  ((__enter__ 0 ;; import_module (H:=demo_host) "msgpack") used_state).2.

(** The scope of the group is still open, [pak] and [ghost] imported. *)
Definition inside_scope_state : State :=
  ((g ← __init__ "pak:requirements.txt" None;
    __enter__ g ;; import_all (H:=demo_host) ["pak"; "ghost"]) initial).2.

(** The first use of [pak] fails in the dry run; then the group is entered
    again and [pak] imported again: its new proxy is module 2. *)
Definition retried_state : State :=
  run_calls (H:=flaky_host) [CallGetattr 1 0 "dopak"; CallEnter 0; CallImport "pak"]
    locked_state.

Definition retried_group : LazyImportGroup :=
  {| requires := "pak:requirements.txt"; name := None;
     modules := [("pak", 2); ("ghost", 1)]; need_install := true |}.

(** Two groups, one after the other: [pak] in group 0, [other] in group 1. *)
Definition two_groups_state : State :=
  ((g1 ← __init__ "pak:requirements.txt" None;
    with_ g1 (import_all (H:=demo_host) ["pak"]) ;;
    g2 ← __init__ "pak:other.txt" None;
    with_ g2 (import_all (H:=demo_host) ["other"])) initial).2.




(** A host with a package whose name has a colon, and no resources. *)
Definition odd_host : Host :=
  make_host (λ _, Report []) 0
    (λ n, if decide (n = "a:b") then Some {| hm_is_package := true; hm_body := ∅ |}
          else None).



(** Two scopes open, the one of group 1 inside the one of group 0. *)
Definition nested_state : State :=
  ((g1 ← __init__ "pak:requirements.txt" None;
    g2 ← __init__ "pak:other.txt" None;
    __enter__ g1 ;; __enter__ g2) initial).2.

Definition fresh_group (requires0 : string) : LazyImportGroup :=
  {| requires := requires0; name := None; modules := []; need_install := true |}.

(** * Proofs *)

Ltac unfold_M :=
  unfold mbind, M_bind, mret, M_ret, raise, get, modify, get_group, get_module,
    finally, on_exception in *.

Ltac split_match :=
  match goal with
  | H : context [match ?x with _ => _ end] |- _ =>
      let E := fresh "E" in destruct x eqn:E
  | H : context [if ?x then _ else _] |- _ =>
      let E := fresh "E" in destruct x eqn:E
  end.

(** ** The registry under [unlock] and [lock] *)

Lemma unlock_names_lookup (names : list string) (reg : gmap string entry) (k : string) :
  unlock_names names reg !! k =
    match reg !! k with
    | Some Halted => if decide (k ∈ names) then None else Some Halted
    | o => o
    end.
Proof.
  revert reg. induction names as [|n names IH]; intros reg; cbn [unlock_names].
  - destruct (reg !! k) as [[]|]; [|done..].
    case_decide; [set_solver|done].
  - assert (Hskip : reg !! n ≠ Some Halted →
      unlock_names names reg !! k =
        match reg !! k with
        | Some Halted => if decide (k ∈ n :: names) then None else Some Halted
        | o => o
        end).
    { intros Hn. rewrite IH. destruct (reg !! k) as [[]|] eqn:Ek; [|done..].
      assert (k ≠ n) by congruence.
      destruct (decide (k ∈ names)).
      - by rewrite decide_True by set_solver.
      - by rewrite decide_False by set_solver. }
    destruct (reg !! n) as [[|m]|] eqn:En; [|by apply Hskip..].
    rewrite IH. destruct (decide (k = n)) as [->|Hne].
    + rewrite lookup_delete_eq, En. case_decide; [done|set_solver].
    + rewrite lookup_delete_ne by done.
      destruct (reg !! k) as [[]|]; [|done..].
      destruct (decide (k ∈ names)).
      * by rewrite decide_True by set_solver.
      * by rewrite decide_False by set_solver.
Qed.

Lemma unlock_names_not_halted (names : list string) (reg : gmap string entry) (k : string) :
  k ∈ names → unlock_names names reg !! k ≠ Some Halted.
Proof.
  intros Hk. rewrite unlock_names_lookup.
  destruct (reg !! k) as [[]|]; try done. by rewrite decide_True.
Qed.

Lemma unlock_names_loaded (names : list string) (reg : gmap string entry) (k : string) (m : loc) :
  unlock_names names reg !! k = Some (Loaded m) ↔ reg !! k = Some (Loaded m).
Proof.
  rewrite unlock_names_lookup. destruct (reg !! k) as [[]|]; try done.
  case_decide; naive_solver.
Qed.

Lemma unlock_names_id (names : list string) (reg : gmap string entry) :
  (∀ n, n ∈ names → reg !! n ≠ Some Halted) → unlock_names names reg = reg.
Proof.
  intros Hnh. apply map_eq. intros k. rewrite unlock_names_lookup.
  destruct (reg !! k) as [[]|] eqn:Ek; [|done..].
  case_decide as Hk; [|done]. by destruct (Hnh k Hk).
Qed.

Lemma lock_items_lookup (items : list (string * loc)) (reg reg' : gmap string entry) (k : string) :
  lock_items items reg = (Ok tt, reg') →
  reg' !! k =
    match reg !! k with
    | Some (Loaded m) => if decide ((k, m) ∈ items) then Some Halted else Some (Loaded m)
    | o => o
    end.
Proof.
  revert reg. induction items as [|[n module] items IH]; intros reg Hlock;
    cbn [lock_items] in Hlock.
  - simplify_eq. destruct (reg' !! k) as [[|m]|]; [done| |done].
    case_decide; [set_solver|done].
  - destruct (reg !! n) as [e|] eqn:En; [|done].
    destruct (decide (e = Loaded module)) as [->|Hne].
    + rewrite (IH _ Hlock). destruct (decide (k = n)) as [->|Hkn].
      * rewrite lookup_insert_eq, En. case_decide; [done|set_solver].
      * rewrite lookup_insert_ne by done.
        destruct (reg !! k) as [[|m]|]; [done| |done].
        repeat case_decide; try done; set_solver.
    + rewrite (IH _ Hlock).
      destruct (reg !! k) as [[|m]|] eqn:Ek; [done| |done].
      repeat case_decide; try done.
      * set_solver.
      * exfalso. match goal with Hin : (k, m) ∈ _ :: _ |- _ =>
          apply elem_of_cons in Hin as [Heq|?]; [simplify_eq|done] end.
Qed.

Lemma lock_items_missing (items : list (string * loc)) (reg : gmap string entry) :
  (∃ n m, (n, m) ∈ items ∧ reg !! n = None) →
  ∃ k reg', lock_items items reg = (Raise (KeyError k), reg') ∧
            k ∈ items.*1 ∧ reg !! k = None.
Proof.
  revert reg. induction items as [|[n module] items IH]; intros reg (k & m & Hin & Hk).
  - by apply elem_of_nil in Hin.
  - simpl. destruct (reg !! n) as [e|] eqn:En.
    + assert (Hrest : (k, m) ∈ items).
      { apply elem_of_cons in Hin as [?|?]; [simplify_eq|done]. }
      assert (k ≠ n) by congruence.
      destruct (decide (e = Loaded module)).
      * destruct (IH (<[n:=Halted]> reg)) as (k' & reg' & Hl & Hk' & Hnone).
        { exists k, m. by rewrite lookup_insert_ne. }
        exists k', reg'. split_and!; [done|set_solver|].
        destruct (decide (k' = n)) as [->|?].
        -- by rewrite lookup_insert_eq in Hnone.
        -- by rewrite lookup_insert_ne in Hnone.
      * destruct (IH reg) as (k' & reg' & Hl & Hk' & Hnone); [by exists k, m|].
        exists k', reg'. split_and!; [done|set_solver|done].
    + exists n, reg. split_and!; [done|set_solver|done].
Qed.

Lemma lock_items_total (items : list (string * loc)) (reg : gmap string entry) :
  (∀ n, n ∈ items.*1 → is_Some (reg !! n)) →
  ∃ reg', lock_items items reg = (Ok tt, reg').
Proof.
  revert reg. induction items as [|[n module] items IH]; intros reg Hall; simpl.
  - by eexists.
  - destruct (Hall n) as [e He]; [set_solver|]. rewrite He.
    destruct (decide (e = Loaded module)).
    + apply IH. intros k Hk. destruct (decide (k = n)) as [->|?].
      * by rewrite lookup_insert_eq.
      * rewrite lookup_insert_ne by done. apply Hall. set_solver.
    + apply IH. intros k Hk. apply Hall. set_solver.
Qed.

(** ** [resolve] *)

Lemma is_real_install_dry_run (freport path : string) :
  is_real_install ("pip" :: dry_run_args freport path) = false.
Proof.
  unfold is_real_install, dry_run_args, install_args, EXTRA_PIP_ARGS. cbn.
  apply bool_decide_eq_false. intros [_ Heq]. discriminate Heq.
Qed.

Lemma is_real_install_install (path : string) :
  is_real_install ("pip" :: install_args path) = true.
Proof.
  unfold is_real_install, install_args, EXTRA_PIP_ARGS. cbn.
  by apply bool_decide_eq_true.
Qed.

Section resolve_facts.
Context `{Host}.

(** What a call of [pip] does to the state. *)
Lemma pip_inv (args : list string) (st : State) (r : outcome unit) (st' : State) :
  pip args st = (r, st') →
  sys_modules st' = sys_modules st ∧ sys_meta_path st' = sys_meta_path st ∧
  heap st' = heap st ∧ groups st' = groups st ∧ stdout st' = stdout st ∧
  match r with
  | Ok _ => procs st' = procs st ++ ["pip" :: args]
  | Raise e => e = OSError ∧ st' = st
  end.
Proof.
  unfold pip. intros Hp. destruct (host_run _ _); simplify_eq; by cbn.
Qed.


(** The steps of [resolve] that only compute. *)
Lemma util_find_spec_inv (name : string) (st : State) (r : outcome value) (st' : State) :
  util_find_spec name st = (r, st') → st' = st.
Proof. unfold util_find_spec. intros Hf. repeat split_match; by simplify_eq. Qed.

Lemma locate_inv (pak req : string) (st : State) (r : outcome string) (st' : State) :
  locate pak req st = (r, st') → st' = st.
Proof.
  unfold locate. unfold_M. intros Hl.
  destruct (util_find_spec pak st) as [[found|e] st0] eqn:Ef;
    apply util_find_spec_inv in Ef as ->; [|by simplify_eq].
  unfold dummy_from_spec in Hl. unfold_M. repeat split_match; by simplify_eq.
Qed.

Lemma getitem_inv (v : json) (key : string) (st : State) (r : outcome json) (st' : State) :
  getitem v key st = (r, st') →
  st' = st ∧ ∀ e, r = Raise e → e = KeyError key ∨ e = TypeError.
Proof.
  unfold getitem. unfold_M. intros Hg. repeat split_match; simplify_eq;
    (split; [done|]); intros e ?; simplify_eq; auto.
Qed.

Lemma iterate_inv (v : json) (st : State) (r : outcome (list json)) (st' : State) :
  iterate v st = (r, st') → st' = st ∧ ∀ e, r = Raise e → e = TypeError.
Proof.
  unfold iterate. unfold_M. intros Hi. destruct v; simplify_eq;
    (split; [done|]); intros e ?; by simplify_eq.
Qed.

Lemma format_map_inv (md : json) (st : State) (r : outcome string) (st' : State) :
  format_map md st = (r, st') →
  st' = st ∧ ∀ e, r = Raise e → (∃ key, e = KeyError key) ∨ e = TypeError.
Proof.
  unfold format_map. unfold_M. intros Hf.
  destruct (getitem md "name" st) as [[n|e1] st1] eqn:E1;
    apply getitem_inv in E1 as [-> He1].
  2:{ simplify_eq. split; [done|]. intros e ?. simplify_eq.
      destruct (He1 _ eq_refl) as [->| ->]; eauto. }
  destruct (getitem md "version" st) as [[v|e2] st2] eqn:E2;
    apply getitem_inv in E2 as [-> He2].
  2:{ simplify_eq. split; [done|]. intros e ?. simplify_eq.
      destruct (He2 _ eq_refl) as [->| ->]; eauto. }
  destruct (getitem md "summary" st) as [[s|e3] st3] eqn:E3;
    apply getitem_inv in E3 as [-> He3].
  2:{ simplify_eq. split; [done|]. intros e ?. simplify_eq.
      destruct (He3 _ eq_refl) as [->| ->]; eauto. }
  simplify_eq. split; [done|]. by intros e ?.
Qed.

Lemma set_stdout_nil (st : State) : set_stdout (λ out, out ++ []) st = st.
Proof. unfold set_stdout. rewrite app_nil_r. by destruct st. Qed.

(** The loop over the entries only prints, and stops at the first entry
    that is not as expected. *)
Lemma print_entries_inv (entries : list json) (st : State) (r : outcome unit) (st' : State) :
  print_entries entries st = (r, st') →
  (∃ lines, st' = set_stdout (λ out, out ++ lines) st) ∧
  ∀ e, r = Raise e → (∃ key, e = KeyError key) ∨ e = TypeError.
Proof.
  revert st. induction entries as [|entry entries IH]; intros st Hp; cbn [print_entries] in Hp.
  - unfold_M. simplify_eq. split; [|done]. exists []. by rewrite set_stdout_nil.
  - unfold_M.
    destruct (getitem entry "metadata" st) as [[md|e1] st1] eqn:E1;
      apply getitem_inv in E1 as [-> He1].
    2:{ simplify_eq. split.
        - exists []. by rewrite set_stdout_nil.
        - intros e ?. simplify_eq. destruct (He1 _ eq_refl) as [->| ->]; eauto. }
    destruct (format_map md st) as [[line|e2] st2] eqn:E2;
      apply format_map_inv in E2 as [-> He2].
    2:{ simplify_eq. split.
        - exists []. by rewrite set_stdout_nil.
        - intros e ?. simplify_eq. by apply He2. }
    unfold print, modify in Hp. apply IH in Hp as [[lines ->] He]. split; [|done].
    exists (line :: lines). unfold set_stdout. cbn. by rewrite <- app_assoc.
Qed.


(** The frame of [resolve], and the commands it hands to the host: none, the
    dry run, or the dry run and then the installation. *)
Lemma resolve_inv' (g : gid) (st : State) (r : outcome unit) (st' : State) :
  resolve g st = (r, st') →
  sys_modules st' = sys_modules st ∧ sys_meta_path st' = sys_meta_path st ∧
  heap st' = heap st ∧
  groups st' = (if r is Ok _ then alter (set_need_install false) g (groups st)
                else groups st) ∧
  ∃ new, procs st' = procs st ++ new ∧
         (new = [] ∨
          ∃ path, new = ["pip" :: dry_run_args host_tmpfile path] ∨
                  (new = ["pip" :: dry_run_args host_tmpfile path;
                          "pip" :: install_args path] ∧ r = Ok tt)).
Proof.
  assert (Hnone : ∀ (ps : list (list string)) (r0 : outcome unit),
    ∃ new, ps = ps ++ new ∧
         (new = [] ∨
          ∃ path, new = ["pip" :: dry_run_args host_tmpfile path] ∨
                  (new = ["pip" :: dry_run_args host_tmpfile path;
                          "pip" :: install_args path] ∧ r0 = Ok tt))).
  { intros ps r0. exists []. rewrite app_nil_r. by split; [|left]. }
  assert (Hdry : ∀ (ps ps' : list (list string)) (r0 : outcome unit) path,
    ps' = ps ++ ["pip" :: dry_run_args host_tmpfile path] →
    ∃ new, ps' = ps ++ new ∧
         (new = [] ∨
          ∃ path, new = ["pip" :: dry_run_args host_tmpfile path] ∨
                  (new = ["pip" :: dry_run_args host_tmpfile path;
                          "pip" :: install_args path] ∧ r0 = Ok tt))).
  { intros ps ps' r0 path ->. eexists. split; [done|]. right. exists path. by left. }
  unfold resolve. unfold_M. intros Hr.
  destruct (groups st !! g) as [G|] eqn:EG; simplify_eq; [|by split_and!].
  destruct (need_install G) eqn:Eneed; cbn in Hr; simplify_eq.
  2:{ split_and!; try done.
      symmetry. apply alter_id. intros G' ?. simplify_eq.
      by destruct G; cbn in *; subst. }
  destruct (rpartition ":" (requires G)) as [pak req].
  destruct (locate pak req st) as [[path|e] st0] eqn:Eloc;
    apply locate_inv in Eloc as ->; simplify_eq; [|by split_and!].
  unfold NamedTemporaryFile in Hr. unfold_M.
  destruct (pip _ _) as [rp st1] eqn:Epip.
  apply pip_inv in Epip as (Hm & Hmp & Hh & Hg & _ & Hprocs).
  cbn in Hm, Hmp, Hh, Hg.
  destruct rp as [[]|e].
  2:{ destruct Hprocs as [-> ->]. cbn in Hr. simplify_eq. cbn. by split_and!. }
  cbn in Hprocs.
  unfold json_load in Hr.
  destruct (files st1 !! host_tmpfile) as [[|report]|] eqn:Efile; cbn in Hr; simplify_eq.
  1,3: cbn; split_and!; try done; by apply (Hdry _ _ _ path).
  set (st2 := set_files (delete host_tmpfile) st1) in *.
  destruct (getitem report "install" st2) as [[install|e] st3] eqn:Eget;
    apply getitem_inv in Eget as [-> _].
  2:{ simplify_eq. cbn. split_and!; try done. by apply (Hdry _ _ _ path). }
  destruct (iterate install st2) as [[entries|e] st3] eqn:Eit;
    apply iterate_inv in Eit as [-> _].
  2:{ simplify_eq. cbn. split_and!; try done. by apply (Hdry _ _ _ path). }
  destruct (print_entries entries st2) as [rprint st3] eqn:Eprint.
  apply print_entries_inv in Eprint as [[lines ->] _].
  destruct rprint as [[]|e].
  2:{ simplify_eq. cbn. split_and!; try done. by apply (Hdry _ _ _ path). }
  set (st3 := set_stdout _ st2) in *.
  destruct (getitem report "install" st3) as [[install'|e] st4] eqn:Eget';
    apply getitem_inv in Eget' as [-> _].
  2:{ simplify_eq. cbn. split_and!; try done. by apply (Hdry _ _ _ path). }
  destruct (truthy install').
  2:{ cbn in Hr. simplify_eq. cbn. split_and!; try congruence. by apply (Hdry _ _ _ path). }
  - destruct (pip _ _) as [rp2 st4] eqn:Epip2.
    apply pip_inv in Epip2 as (Hm2 & Hmp2 & Hh2 & Hg2 & _ & Hprocs2).
    cbn in Hm2, Hmp2, Hh2, Hg2, Hprocs2.
    destruct rp2 as [[]|e]; simplify_eq; cbn.
    + split_and!; try congruence.
      exists ["pip" :: dry_run_args host_tmpfile path; "pip" :: install_args path].
      split; [by rewrite Hprocs2, Hprocs, <- app_assoc|].
      right. exists path. by right.
    + destruct Hprocs2 as [-> ->]. cbn. split_and!; try done. by apply (Hdry _ _ _ path).
Qed.

Lemma resolve_inv (g : gid) (st : State) (r : outcome unit) (st' : State) :
  resolve g st = (r, st') →
  sys_modules st' = sys_modules st ∧ sys_meta_path st' = sys_meta_path st ∧
  heap st' = heap st ∧
  groups st' = (if r is Ok _ then alter (set_need_install false) g (groups st)
                else groups st) ∧
  ∃ new, procs st' = procs st ++ new ∧
         length (filter (λ cmd, is_real_install cmd) new) ≤ 1 ∧
         (filter (λ cmd, is_real_install cmd) new ≠ [] → r = Ok tt).
Proof.
  intros (Hm & Hmp & Hh & Hg & new & Hprocs & Hshape)%resolve_inv'.
  split_and!; try done. exists new. split; [done|].
  destruct Hshape as [->|[path [->|[-> ->]]]].
  - split; [cbn; lia|done].
  - rewrite filter_cons_False by (rewrite is_real_install_dry_run; exact id).
    split; [cbn; lia|done].
  - rewrite filter_cons_False by (rewrite is_real_install_dry_run; exact id).
    rewrite filter_cons_True by (rewrite is_real_install_install; exact I).
    split; [cbn; lia|done].
Qed.

End resolve_facts.

Section resolve_theorems.
Context `{Host}.

Lemma resolve_noop (g : gid) (st : State) :
  need_install_of g st = Some false → resolve g st = (Ok tt, st).
Proof.
  unfold need_install_of, resolve. unfold_M. intros Hflag.
  destruct (groups st !! g) as [G|]; [|done]. cbn in Hflag. simplify_eq.
  by rewrite Hflag.
Qed.

Lemma resolve_dangling (g : gid) (st : State) :
  need_install_of g st = None → resolve g st = (Raise Dangling, st).
Proof.
  unfold need_install_of, resolve. unfold_M. intros Hflag.
  by destruct (groups st !! g) as [G|].
Qed.

Lemma resolve_flag (g : gid) (st : State) (r : outcome unit) (st' : State) :
  resolve g st = (r, st') →
  need_install_of g st' =
    (if r is Ok _ then (λ _, false) else id) <$> need_install_of g st.
Proof.
  intros (_ & _ & _ & Hg & _)%resolve_inv. unfold need_install_of. rewrite Hg.
  destruct r.
  - rewrite lookup_alter_eq. by destruct (groups st !! g).
  - by destruct (groups st !! g).
Qed.

Lemma resolve_times_installs (n : nat) (g : gid) (st : State) :
  installs (resolve_times n g st)
  ≤ installs st + (if need_install_of g st is Some true then 1 else 0).
Proof.
  revert st. induction n as [|n IH]; intros st; cbn [resolve_times]; [lia|].
  destruct (need_install_of g st) as [[]|] eqn:Eflag.
  - destruct (resolve g st) as [r st1] eqn:Er. cbn [snd].
    pose proof (resolve_flag _ _ _ _ Er) as Hflag. rewrite Eflag in Hflag.
    apply resolve_inv in Er as (_ & _ & _ & _ & new & Hprocs & Hle & Hok).
    assert (Hcount : installs st1
              = installs st + length (filter (λ cmd, is_real_install cmd) new)).
    { unfold installs. by rewrite Hprocs, filter_app, length_app. }
    specialize (IH st1). rewrite Hflag in IH. destruct r; cbn in IH.
    + lia.
    + destruct (filter (λ cmd, is_real_install cmd) new) eqn:Ef; [cbn in *; lia|].
      by discriminate Hok.
  - rewrite resolve_noop by done. cbn [snd]. specialize (IH st).
    rewrite Eflag in IH. lia.
  - rewrite resolve_dangling by done. cbn [snd]. specialize (IH st).
    rewrite Eflag in IH. lia.
Qed.

Lemma resolve_times_resolved (n : nat) (g : gid) (st : State) :
  need_install_of g st = Some false → resolve_times n g st = st.
Proof.
  intros Hflag. induction n as [|n IH]; cbn [resolve_times]; [done|].
  by rewrite resolve_noop.
Qed.


(** C7.  When [resolve()] raises, nothing of it is recorded in the
    interpreter: the groups, [sys.modules] and the module objects are as
    they were before the call.  [need_install] of the group is still true, so
    the next call goes through the installation again. *)
Theorem resolve_failure_leaves_group (g : gid) (st : State) (e : exn) (st' : State) (G : LazyImportGroup) :
  groups st !! g = Some G →
  resolve g st = (Raise e, st') →
  groups st' = groups st ∧ sys_modules st' = sys_modules st ∧ heap st' = heap st ∧
  need_install G = true ∧ need_install_of g st' = Some true.
Proof.
  intros HG Hr.
  pose proof Hr as (Hreg & _ & Hheap & Hgroups & _)%resolve_inv. cbn in Hgroups.
  split_and!; [done..| |].
  - destruct (need_install G) eqn:Eneed; [done|].
    rewrite resolve_noop in Hr; [done|]. unfold need_install_of. by rewrite HG; cbn; f_equal.
  - pose proof (resolve_flag _ _ _ _ Hr) as Hflag. cbn in Hflag.
    rewrite Hflag. unfold need_install_of. rewrite HG. cbn. f_equal.
    destruct (need_install G) eqn:Eneed; [done|].
    rewrite resolve_noop in Hr; [done|]. unfold need_install_of. by rewrite HG; cbn; f_equal.
Qed.


End resolve_theorems.

(** ** The import machinery *)

Section import_facts.
Context `{Host}.

Lemma init_module_attrs_spec (spec : ModuleSpec) :
  init_module_attrs spec !! "__spec__" = Some (VSpec spec).
Proof. unfold init_module_attrs. by destruct (is_package spec). Qed.

Lemma fresh_loc_unused (st : State) : heap st !! fresh (dom (heap st)) = None.
Proof. apply not_elem_of_dom, is_fresh. Qed.

Lemma register_inv (g : gid) (module : loc) (st : State) (r : outcome unit) (st' : State) :
  register g module st = (r, st') →
  sys_modules st' = sys_modules st ∧ sys_meta_path st' = sys_meta_path st ∧
  heap st' = heap st ∧ procs st' = procs st ∧
  (∀ n, r ≠ Raise (ImportHalted n)) ∧
  (∀ g', need_install_of g' st' = need_install_of g' st).
Proof.
  unfold register. unfold_M. intros Hr.
  repeat split_match; simplify_eq; split_and!; try done.
  intros g'. unfold need_install_of. cbn.
  destruct (decide (g = g')) as [->|?].
  - rewrite lookup_insert_eq. match goal with E : groups _ !! _ = Some _ |- _ => by rewrite E end.
  - by rewrite lookup_insert_ne.
Qed.

(** An import that a group's finder answers: a new [VeryLazyModule] is put
    into [sys.modules] and into the group. *)
Lemma import_in_scope (g : gid) (G : LazyImportGroup) (mp : list finder)
    (fullname : string) (st : State) :
  sys_meta_path st = VeryLazyFinder g :: mp →
  groups st !! g = Some G →
  sys_modules st !! fullname = None →
  let m := fresh (dom (heap st)) in
  import_module fullname st =
    (Ok m,
     set_groups <[g := {| requires := requires G; name := name G;
                          modules := dict_set fullname m (modules G);
                          need_install := need_install G |}]>
       (set_heap (alter (set_class VeryLazyModule) m)
          (set_sys_modules <[fullname := Loaded m]>
             (set_heap <[m := {| m_class := ModuleType;
                                 m_dict := init_module_attrs (find_spec g fullname) |}]> st)))).
Proof.
  intros Hmp HG Hreg m. unfold import_module. rewrite Hreg, Hmp. cbn [_find_spec].
  unfold _load, module_from_spec, exec_module, register. unfold_M.
  cbn [heap set_heap set_sys_modules spec_name find_spec spec_loader].
  fold m. rewrite lookup_insert_eq. cbn [m_dict].
  rewrite init_module_attrs_spec. cbn [loader_state find_spec heap set_heap set_sys_modules].
  rewrite lookup_alter_eq, lookup_insert_eq. cbn [fmap option_fmap option_map set_class m_dict].
  rewrite init_module_attrs_spec. cbn [groups set_heap set_sys_modules spec_name].
  by rewrite HG.
Qed.

Lemma _find_spec_name (fullname : string) (mp : list finder) (spec : ModuleSpec) :
  _find_spec fullname mp = Some spec → spec_name spec = fullname.
Proof.
  induction mp as [|[g|] mp IH]; cbn; intros Hs; simplify_eq; [done|].
  destruct (host_find_spec fullname); simplify_eq; [done|]. by apply IH.
Qed.

Lemma _find_spec_loader (fullname : string) (mp : list finder) (spec : ModuleSpec) :
  _find_spec fullname mp = Some spec →
  (∃ g, spec = find_spec g fullname) ∨
  (spec_loader spec = HostLoader ∧ spec_name spec = fullname ∧
   is_Some (host_find_spec fullname)).
Proof.
  induction mp as [|[g|] mp IH]; cbn; intros Hs; simplify_eq; [by left; eexists|].
  destruct (host_find_spec fullname) eqn:Eh; simplify_eq; [by right|]. by apply IH.
Qed.

Lemma _load_inv (spec : ModuleSpec) (st : State) (r : outcome loc) (st' : State) :
  sys_modules st !! spec_name spec = None →
  _load spec st = (r, st') →
  (∀ p o, heap st !! p = Some o → heap st' !! p = Some o) ∧
  (∀ g, need_install_of g st' = need_install_of g st) ∧
  procs st' = procs st ∧ sys_meta_path st' = sys_meta_path st ∧
  match r with
  | Ok m =>
      heap st !! m = None ∧ is_Some (heap st' !! m) ∧
      sys_modules st' = <[spec_name spec := Loaded m]> (sys_modules st)
  | Raise e =>
      sys_modules st' = sys_modules st ∧ e ≠ ImportHalted (spec_name spec)
  end.
Proof.
  intros Hreg. unfold _load, module_from_spec. unfold_M.
  set (m := fresh (dom (heap st))).
  set (st1 := set_sys_modules _ (set_heap _ st)).
  assert (Hm : heap st !! m = None) by apply fresh_loc_unused.
  assert (Hold : ∀ p o, heap st !! p = Some o → heap st1 !! p = Some o).
  { intros p o Hp. cbn. rewrite lookup_insert_ne; [done|]. intros ->. congruence. }
  assert (Hnew : is_Some (heap st1 !! m)).
  { cbn. rewrite lookup_insert_eq. eauto. }
  assert (Hdel : delete (spec_name spec) (sys_modules st1) = sys_modules st).
  { cbn. rewrite delete_insert_eq. by apply delete_id. }
  destruct (spec_loader spec).
  - unfold exec_module. unfold_M.
    destruct (heap st1 !! m) as [o|] eqn:Eo; [|by destruct Hnew].
    set (st2 := set_heap _ st1).
    assert (Hold2 : ∀ p o', heap st !! p = Some o' → heap st2 !! p = Some o').
    { intros p o' Hp. unfold st2. cbn [heap set_heap].
      rewrite lookup_alter_ne by (intros ->; congruence). by apply Hold. }
    assert (Hnew2 : is_Some (heap st2 !! m)).
    { unfold st2. cbn [heap set_heap]. rewrite lookup_alter_eq, Eo. by eexists. }
    destruct (m_dict o !! "__spec__") as [[]|];
      try (intros ?; simplify_eq; by split_and!).
    destruct (loader_state s) as [g|];
      [|intros ?; simplify_eq; by split_and!].
    destruct (register g m st2) as [rr st3] eqn:Ereg3.
    apply register_inv in Ereg3 as (Hr1 & Hr2 & Hr3 & Hr4 & Hr5 & Hr6).
    destruct rr as [[]|e]; intros ?; simplify_eq.
    + split_and!; try done.
      * intros p o' Hp. rewrite Hr3. by apply Hold2.
      * by rewrite Hr3.
    + split_and!; try done.
      * intros p o' Hp. cbn. rewrite Hr3. by apply Hold2.
      * cbn. by rewrite Hr1.
      * intros ->. by eapply Hr5.
  - unfold host_exec_module. unfold_M.
    destruct (host_find_spec (spec_name spec)) as [hm|]; intros ?; simplify_eq.
    + split_and!; try done.
      * intros p o' Hp. cbn [heap set_heap].
        rewrite lookup_alter_ne by (intros ->; congruence). by apply Hold.
      * cbn [heap set_heap]. rewrite lookup_alter_eq.
        destruct Hnew as [o ->]. by eexists.
    + by split_and!.
Qed.



(** What one import can do to the state. *)
Lemma import_module_inv (fullname : string) (st : State) (r : outcome loc) (st' : State) :
  import_module fullname st = (r, st') →
  (∀ p o, heap st !! p = Some o → heap st' !! p = Some o) ∧
  (∀ g, need_install_of g st' = need_install_of g st) ∧
  procs st' = procs st ∧ sys_meta_path st' = sys_meta_path st ∧
  match r with
  | Ok m =>
      (sys_modules st !! fullname = Some (Loaded m) ∧ st' = st) ∨
      (sys_modules st !! fullname = None ∧ heap st !! m = None ∧
       is_Some (heap st' !! m) ∧
       sys_modules st' = <[fullname := Loaded m]> (sys_modules st))
  | Raise e =>
      sys_modules st' = sys_modules st ∧
      (e = ImportHalted fullname ↔ sys_modules st !! fullname = Some Halted)
  end.
Proof.
  unfold import_module. intros Hi.
  destruct (sys_modules st !! fullname) as [[|m]|] eqn:Ereg; simplify_eq.
  - by split_and!.
  - split_and!; try done. by left.
  - destruct (_find_spec fullname (sys_meta_path st)) as [spec|] eqn:Espec; simplify_eq.
    2:{ split_and!; try done. }
    pose proof (_find_spec_name _ _ _ Espec) as Hname.
    apply _load_inv in Hi as (H1 & H2 & H3 & H4 & H5); [|by rewrite Hname].
    rewrite Hname in H5. split_and!; try done.
    destruct r as [m|e].
    + right. by destruct H5 as (? & ? & ?).
    + destruct H5 as [? Hne]. split; [done|]. split; [done|]. intros ?; simplify_eq.
Qed.

End import_facts.

(** ** The first use of a proxy *)

Section proxy_facts.
Context `{Host}.

Lemma getattr_found (depth : nat) (obj : loc) (attr : string) (st : State)
    (o : module_obj) (v : value) :
  heap st !! obj = Some o → m_dict o !! attr = Some v →
  getattr depth obj attr st = (Ok v, st).
Proof. intros Ho Hv. destruct depth; cbn; by rewrite Ho, Hv. Qed.

Lemma getattr_plain (depth : nat) (obj : loc) (attr : string) (st : State) (o : module_obj) :
  heap st !! obj = Some o → m_class o = ModuleType →
  getattr depth obj attr st =
    (match m_dict o !! attr with
     | Some v => Ok v
     | None => Raise (AttributeError attr)
     end, st).
Proof.
  intros Ho Hc. destruct depth; cbn; rewrite Ho, Hc; by destruct (m_dict o !! attr).
Qed.

Lemma unlock_inv (g : gid) (st : State) :
  unlock g st =
    match groups st !! g with
    | Some G => (Ok tt, set_sys_modules (unlock_names (modules G).*1) st)
    | None => (Raise Dangling, st)
    end.
Proof. unfold unlock. unfold_M. by destruct (groups st !! g). Qed.

(** The first attribute access on a pending proxy, step by step. *)
Lemma first_access (depth : nat) (p : loc) (attr : string) (st : State)
    (spec : ModuleSpec) (g : gid) (o : module_obj) :
  heap st !! p = Some o → m_class o = VeryLazyModule →
  m_dict o !! "__spec__" = Some (VSpec spec) → loader_state spec = Some g →
  m_dict o !! attr = None →
  getattr (S depth) p attr st =
    match unlock g (relinquish p st) with
    | (Raise e, st1) => (Raise e, st1)
    | (Ok _, st1) =>
        match resolve g st1 with
        | (Raise e, st2) => (Raise e, st2)
        | (Ok _, st2) =>
            match import_module (spec_name spec) st2 with
            | (Raise e, st3) => (Raise e, st3)
            | (Ok real, st3) =>
                match heap (record_real p real st3) !! real with
                | None => (Raise Dangling, record_real p real st3)
                | Some ro =>
                    getattr depth p attr (merge_real p ro (record_real p real st3))
                end
            end
        end
    end.
Proof.
  intros Hp Hc Hs Hl Ha. cbn [getattr]. rewrite Hp, Ha, Hc.
  unfold __getattr__. unfold_M. rewrite Hp.
  fold (relinquish p st).
  assert (Hp0 : heap (relinquish p st) !! p = Some (set_class ModuleType o)).
  { unfold relinquish. cbn [heap set_heap]. by rewrite lookup_alter_eq, Hp. }
  rewrite (getattr_found depth p "__spec__" _ _ _ Hp0 Hs). rewrite Hl.
  rewrite unlock_inv.
  assert (Hgr : groups (relinquish p st) = groups st) by done. rewrite Hgr.
  destruct (groups st !! g) as [G|] eqn:EG; [|done].
  set (st1 := set_sys_modules _ _).
  destruct (resolve g st1) as [[[]|e] st2] eqn:Er; [|done].
  apply resolve_inv in Er as (_ & _ & Hh & _).
  assert (Hp2 : heap st2 !! p = Some (set_class ModuleType o)).
  { rewrite Hh. by subst st1. }
  rewrite (getattr_found depth p "__spec__" _ _ _ Hp2 Hs).
  destruct (import_module (spec_name spec) st2) as [[real|e] st3] eqn:Ei; [|done].
  fold (record_real p real st3).
  destruct (heap (record_real p real st3) !! real) as [ro|]; [|done].
  done.
Qed.

End proxy_facts.

Section first_use.
Context `{Host}.

(** A first access that returns went through every step. *)
Lemma first_access_ok (depth : nat) (p : loc) (attr : string) (st : State)
    (spec : ModuleSpec) (g : gid) (o : module_obj) (v : value) (st' : State) :
  heap st !! p = Some o → m_class o = VeryLazyModule →
  m_dict o !! "__spec__" = Some (VSpec spec) → loader_state spec = Some g →
  m_dict o !! attr = None →
  getattr (S depth) p attr st = (Ok v, st') →
  ∃ G st2 st3 real ro,
    groups st !! g = Some G ∧
    unlock g (relinquish p st)
      = (Ok tt, set_sys_modules (unlock_names (modules G).*1) (relinquish p st)) ∧
    resolve g (set_sys_modules (unlock_names (modules G).*1) (relinquish p st))
      = (Ok tt, st2) ∧
    import_module (spec_name spec) st2 = (Ok real, st3) ∧
    heap st3 !! p = Some (set_class ModuleType o) ∧
    heap (record_real p real st3) !! real = Some ro ∧
    st' = merge_real p ro (record_real p real st3) ∧
    heap st' !! p = Some (used_proxy o ro real) ∧
    m_dict (used_proxy o ro real) !! attr = Some v.
Proof.
  intros Hp Hc Hs Hl Ha Hget.
  rewrite (first_access depth p attr st spec g o Hp Hc Hs Hl Ha) in Hget.
  rewrite unlock_inv in Hget |- *.
  assert (Hgr : groups (relinquish p st) = groups st) by done.
  rewrite Hgr in Hget |- *.
  destruct (groups st !! g) as [G|] eqn:EG; [|done].
  set (st1 := set_sys_modules _ _) in *.
  destruct (resolve g st1) as [[[]|e] st2] eqn:Er; [|done].
  destruct (import_module (spec_name spec) st2) as [[real|e] st3] eqn:Ei; [|done].
  destruct (heap (record_real p real st3) !! real) as [ro|] eqn:Ero; [|done].
  assert (Hp3 : heap st3 !! p = Some (set_class ModuleType o)).
  { apply import_module_inv in Ei as (Hold & _).
    apply resolve_inv in Er as (_ & _ & Hh & _).
    apply Hold. rewrite Hh. unfold st1, relinquish. cbn [heap set_heap set_sys_modules].
    by rewrite lookup_alter_eq, Hp. }
  assert (Hp5 : heap (merge_real p ro (record_real p real st3)) !! p
                = Some (used_proxy o ro real)).
  { unfold merge_real, record_real, used_proxy. cbn [heap set_heap].
    by rewrite !lookup_alter_eq, Hp3. }
  rewrite (getattr_plain depth p attr _ _ Hp5) in Hget by done.
  destruct (m_dict (used_proxy o ro real) !! attr) as [w|] eqn:Ew; simplify_eq.
  exists G, st2, st3, real, ro. by split_and!.
Qed.

(** After a first access that returned: the registry is the one the load
    left, no member name is halted, and the group is resolved. *)
Lemma first_access_group (G : LazyImportGroup) (p : loc) (g : gid) (st st2 st3 : State)
    (fullname : string) (real : loc) :
  groups st !! g = Some G →
  resolve g (set_sys_modules (unlock_names (modules G).*1) (relinquish p st))
    = (Ok tt, st2) →
  import_module fullname st2 = (Ok real, st3) →
  sys_modules st3 !! fullname = Some (Loaded real) ∧
  (∀ n, n ∈ (modules G).*1 → sys_modules st3 !! n ≠ Some Halted) ∧
  need_install_of g st3 = Some false.
Proof.
  intros HG Hr Hi. split_and!.
  - apply import_module_inv in Hi as (_ & _ & _ & _ & [[? ->]|(_ & _ & _ & ->)]).
    + done.
    + by rewrite lookup_insert_eq.
  - intros n Hn.
    assert (Hnh : sys_modules st2 !! n ≠ Some Halted).
    { apply resolve_inv in Hr as (-> & _). cbn [sys_modules set_sys_modules].
      by apply unlock_names_not_halted. }
    apply import_module_inv in Hi as (_ & _ & _ & _ & [[? ->]|(_ & _ & _ & ->)]); [done|].
    destruct (decide (fullname = n)) as [->|?].
    + by rewrite lookup_insert_eq.
    + by rewrite lookup_insert_ne.
  - pose proof (resolve_flag _ _ _ _ Hr) as Hf.
    apply import_module_inv in Hi as (_ & Hn & _). rewrite Hn, Hf.
    unfold need_install_of, relinquish. cbn [groups set_heap set_sys_modules].
    by rewrite HG.
Qed.

Lemma set_sys_modules_id (f : gmap string entry → gmap string entry) (st : State) :
  f (sys_modules st) = sys_modules st → set_sys_modules f st = st.
Proof. intros Hf. destruct st. unfold set_sys_modules. cbn in *. by rewrite Hf. Qed.



End first_use.

(** ** The activation scope *)

Lemma dict_set_in {V} (k : string) (v : V) (d : list (string * V)) :
  (k, v) ∈ dict_set k v d.
Proof.
  induction d as [|[k' v'] d IH]; cbn; [set_solver|].
  case_decide; set_solver.
Qed.

Lemma dict_set_other {V} (k : string) (v : V) (k' : string) (v' : V) (d : list (string * V)) :
  k' ≠ k → (k', v') ∈ d → (k', v') ∈ dict_set k v d.
Proof.
  intros Hne. induction d as [|[k0 v0] d IH]; cbn; [set_solver|].
  intros [Heq|Hin]%elem_of_cons.
  - simplify_eq. rewrite decide_False by done. set_solver.
  - case_decide; set_solver.
Qed.

Section scope_facts.
Context `{Host}.

Lemma import_in_scope_inv (g : gid) (G : LazyImportGroup) (mp : list finder)
    (k : string) (st : State) (r : outcome loc) (st' : State) :
  sys_meta_path st = VeryLazyFinder g :: mp →
  groups st !! g = Some G →
  import_module k st = (r, st') →
  sys_meta_path st' = sys_meta_path st ∧
  (∃ G', groups st' !! g = Some G') ∧
  (∀ n, registered g st n → registered g st' n) ∧
  (∀ n, n ≠ k → sys_modules st' !! n = sys_modules st !! n) ∧
  (sys_modules st !! k = None → r ≠ Raise (ImportHalted k) ∧ registered g st' k).
Proof.
  intros Hmp HG Hi.
  destruct (sys_modules st !! k) as [e|] eqn:Ek.
  - assert (st' = st) as ->.
    { unfold import_module in Hi. rewrite Ek in Hi. destruct e; by simplify_eq. }
    split_and!; eauto. done.
  - rewrite (import_in_scope g G mp k st Hmp HG Ek) in Hi. simplify_eq.
    cbn [sys_meta_path sys_modules groups set_groups set_heap set_sys_modules].
    split_and!.
    + done.
    + rewrite lookup_insert_eq. by eexists.
    + intros n (m & G0 & HG0 & Hin & Hn). simplify_eq.
      assert (n ≠ k) by congruence.
      exists m. eexists.
      cbn [sys_meta_path sys_modules groups set_groups set_heap set_sys_modules].
      rewrite lookup_insert_eq. split; [done|]. cbn [modules].
      split; [by apply dict_set_other|]. by rewrite lookup_insert_ne.
    + intros n Hn. by rewrite lookup_insert_ne.
    + intros _. split; [done|]. eexists _, _.
      cbn [sys_meta_path sys_modules groups set_groups set_heap set_sys_modules].
      rewrite !lookup_insert_eq. split; [done|]. split; [apply dict_set_in|done].
Qed.

Lemma import_all_in_scope (g : gid) (G : LazyImportGroup) (mp : list finder)
    (names : list string) (st : State) (r : outcome unit) (st' : State) :
  sys_meta_path st = VeryLazyFinder g :: mp →
  groups st !! g = Some G →
  import_all names st = (r, st') →
  sys_meta_path st' = sys_meta_path st ∧
  (∃ G', groups st' !! g = Some G') ∧
  (∀ n, registered g st n → registered g st' n) ∧
  (r = Ok tt → ∀ n, n ∈ names → sys_modules st !! n = None → registered g st' n).
Proof.
  revert G st. induction names as [|k names IH]; intros G st Hmp HG Hall.
  - cbn in Hall. unfold_M. simplify_eq. split_and!; eauto. intros _ n Hn. set_solver.
  - cbn [import_all] in Hall. unfold_M.
    destruct (import_module k st) as [[m|e] st1] eqn:Ek.
    + destruct (import_in_scope_inv _ _ _ _ _ _ _ Hmp HG Ek)
        as (Hmp1 & [G1 HG1] & Hkeep1 & Hother1 & Hnew1).
      rewrite Hmp in Hmp1.
      destruct (IH G1 st1 Hmp1 HG1 Hall) as (Hmp' & HG' & Hkeep & Hnew).
      split_and!.
      * by rewrite Hmp', Hmp1, Hmp.
      * done.
      * intros n Hn. by apply Hkeep, Hkeep1.
      * intros -> n Hn Hnone. destruct (decide (n = k)) as [->|Hne].
        -- apply Hkeep. by apply Hnew1.
        -- apply Hnew; [done|set_solver|]. by rewrite Hother1.
    + simplify_eq.
      destruct (import_in_scope_inv _ _ _ _ _ _ _ Hmp HG Ek)
        as (Hmp1 & HG1 & Hkeep1 & _).
      by split_and!.
Qed.





End scope_facts.

(** ** Return codes *)

Lemma pip_same_but_returncode (H1 H2 : Host) (args : list string) (st : State) :
  same_but_returncode H1 H2 → @pip H1 args st = @pip H2 args st.
Proof.
  intros (_ & _ & Hrun & _). unfold pip. specialize (Hrun (procs st) ("pip" :: args)).
  destruct (@host_run H1 _ _) as [p1|], (@host_run H2 _ _) as [p2|]; simplify_eq; [|done].
  by rewrite Hrun.
Qed.

Lemma _find_spec_same_but_returncode (H1 H2 : Host) (fullname : string) (mp : list finder) :
  same_but_returncode H1 H2 → @_find_spec H1 fullname mp = @_find_spec H2 fullname mp.
Proof.
  intros (_ & _ & _ & Hfind). induction mp as [|[g|] mp IH]; cbn; [done..|].
  rewrite Hfind. by destruct (@host_find_spec H2 fullname).
Qed.

Lemma locate_same_but_returncode (H1 H2 : Host) (pak req : string) (st : State) :
  same_but_returncode H1 H2 → @locate H1 pak req st = @locate H2 pak req st.
Proof.
  intros Hsame. pose proof Hsame as (Hloc & _).
  unfold locate, util_find_spec. unfold_M.
  rewrite (_find_spec_same_but_returncode H1 H2 _ _ Hsame).
  destruct (sys_modules st !! pak) as [[|m]|]; [done| |].
  - destruct (heap st !! m) as [o|]; [|done].
    destruct (m_dict o !! "__spec__") as [[]|]; try done.
    cbn. destruct (negb (is_package s)); [done|]. by rewrite Hloc.
  - destruct (@_find_spec H2 pak (sys_meta_path st)) as [spec|]; [|done].
    cbn. destruct (negb (is_package spec)); [done|]. by rewrite Hloc.
Qed.

Lemma resolve_same_but_returncode (H1 H2 : Host) (g : gid) (st : State) :
  same_but_returncode H1 H2 → @resolve H1 g st = @resolve H2 g st.
Proof.
  intros Hsame. pose proof Hsame as (_ & Htmp & _ & _).
  unfold resolve. unfold_M.
  destruct (groups st !! g) as [G|]; [|done].
  destruct (negb (need_install G)); [done|].
  destruct (rpartition ":" (requires G)) as [pak req].
  rewrite (locate_same_but_returncode H1 H2 _ _ _ Hsame).
  destruct (@locate H2 pak req st) as [[path|e] st0]; [|done].
  unfold NamedTemporaryFile. unfold_M. rewrite Htmp.
  rewrite (pip_same_but_returncode H1 H2 _ _ Hsame).
  destruct (@pip H2 _ _) as [[[]|e] st1]; [|done].
  destruct (json_load _ st1) as [[report|e] st2]; [|done].
  destruct (getitem _ _ _) as [[install|e] st3]; [|done].
  destruct (iterate _ _) as [[entries|e] st4]; [|done].
  destruct (print_entries _ _) as [[[]|e] st5]; [|done].
  destruct (getitem _ _ _) as [[install'|e] st6]; [|done].
  destruct (truthy install'); [|done].
  by rewrite (pip_same_but_returncode H1 H2 _ _ Hsame).
Qed.

(** C4.  [pip] returns normally whenever the process could be started,
    whatever its return code; [resolve()] does the same on two hosts that
    differ only in return codes; and one call of [resolve()] starts at most
    two processes, so nothing is tried again. *)
Theorem pip_returncode_unchecked :
  (∀ (H : Host) args st p,
     host_run (procs st) ("pip" :: args) = Some p →
     pip args st = (Ok tt, set_files (λ fs, written p ∪ fs)
                             (set_procs (λ ps, ps ++ ["pip" :: args]) st))) ∧
  (∀ (H1 H2 : Host) g st,
     same_but_returncode H1 H2 → @resolve H1 g st = @resolve H2 g st) ∧
  (∀ (H : Host) g st r st',
     resolve g st = (r, st') →
     ∃ new, procs st' = procs st ++ new ∧ length new ≤ 2).
Proof.
  split_and!.
  - intros H args st p Hrun. unfold pip. by rewrite Hrun.
  - intros H1 H2 g st. apply resolve_same_but_returncode.
  - intros H g st r st' (_ & _ & _ & _ & new & Hprocs & Hshape)%resolve_inv'.
    exists new. split; [done|].
    destruct Hshape as [->|[path [->|[-> _]]]]; cbn; lia.
Qed.

(** ** [lock] *)

Section lock_facts.
Context `{Host}.

(** When every member name is a key of [sys.modules], [lock] halts the
    entries that are the member itself and leaves the others. *)
Lemma lock_ok (g : gid) (G : LazyImportGroup) (st : State) :
  groups st !! g = Some G →
  (∀ n, n ∈ (modules G).*1 → is_Some (sys_modules st !! n)) →
  ∃ st', lock g st = (Ok tt, st') ∧
         heap st' = heap st ∧ groups st' = groups st ∧
         ∀ k, sys_modules st' !! k =
                match sys_modules st !! k with
                | Some (Loaded m) =>
                    if decide ((k, m) ∈ modules G) then Some Halted else Some (Loaded m)
                | e => e
                end.
Proof.
  intros HG Hall. unfold lock. rewrite HG.
  destruct (lock_items_total _ _ Hall) as [reg' Hl]. rewrite Hl.
  eexists. split; [done|]. split_and!; [done..|].
  intros k. cbn [sys_modules set_sys_modules]. by apply lock_items_lookup.
Qed.

(** C6.  [lock] raises [KeyError] when [sys.modules] has no entry at all for
    some member name: [sys.modules[name]] is read without the membership
    test that [unlock] makes. *)
Theorem lock_missing_member_KeyError (g : gid) (G : LazyImportGroup) (st : State)
    (n : string) (m : loc) :
  groups st !! g = Some G →
  (n, m) ∈ modules G →
  sys_modules st !! n = None →
  ∃ k st', lock g st = (Raise (KeyError k), st') ∧
           k ∈ (modules G).*1 ∧ sys_modules st !! k = None.
Proof.
  intros HG Hin Hn. unfold lock. rewrite HG.
  destruct (lock_items_missing (modules G) (sys_modules st)) as (k & reg' & Hl & Hk & Hnone);
    [by exists n, m|].
  rewrite Hl. by exists k, (set_sys_modules (λ _, reg') st).
Qed.

End lock_facts.

(** ** Which exceptions the steps of a first use can raise *)

Section exceptions.
Context `{Host}.


(** The package is found nowhere, or [sys.modules] maps it to [None]. *)
Lemma util_find_spec_none (name : string) (st : State) :
  sys_modules st !! name = Some Halted ∨
  (sys_modules st !! name = None ∧ _find_spec name (sys_meta_path st) = None) →
  util_find_spec name st = (Ok VNone, st).
Proof. unfold util_find_spec. by intros [->|[-> ->]]. Qed.

Lemma import_module_raises (fullname : string) (st : State) (e : exn) (st' : State) :
  import_module fullname st = (Raise e, st') → ∀ a, e ≠ AttributeError a.
Proof.
  unfold import_module. intros Hi a ->.
  destruct (sys_modules st !! fullname) as [[|m]|]; simplify_eq.
  destruct (_find_spec fullname (sys_meta_path st)) as [spec|] eqn:Espec; simplify_eq.
  unfold _load, module_from_spec in Hi. unfold_M.
  apply _find_spec_loader in Espec as [[g ->]|(Hl & Hn & [hm Hhm])].
  - cbn [spec_loader find_spec spec_name] in Hi.
    unfold exec_module, register in Hi. unfold_M.
    cbn [heap set_heap set_sys_modules] in Hi.
    rewrite lookup_insert_eq in Hi. cbn [m_dict] in Hi.
    rewrite init_module_attrs_spec in Hi. cbn [loader_state find_spec] in Hi.
    cbn [heap set_heap set_sys_modules] in Hi.
    rewrite lookup_alter_eq, lookup_insert_eq in Hi.
    cbn [fmap option_fmap option_map set_class m_dict] in Hi.
    rewrite init_module_attrs_spec in Hi.
    cbn [groups set_heap set_sys_modules] in Hi.
    destruct (groups st !! g); simplify_eq.
  - rewrite Hl, Hn in Hi. unfold host_exec_module in Hi. rewrite Hhm in Hi.
    unfold_M. simplify_eq.
Qed.

End exceptions.

(** ** A proxy is used once *)

Section once.
Context `{Host}.




(** C8.  After a first access that returned, [real_module(proxy)] is the
    module the load returned, unless the namespace of that module has a
    [__real_module__] entry of its own, which is then what [real_module]
    gives; and the loaded module is another object than the proxy whenever
    [sys.modules] did not map the proxy's name to the proxy itself. *)
Theorem real_module_after_first_use (depth : nat) (p : loc) (attr : string)
    (st : State) (spec : ModuleSpec) (g : gid) (o : module_obj)
    (v : value) (st' : State) :
  pending st p o spec g →
  m_dict o !! attr = None →
  getattr (S depth) p attr st = (Ok v, st') →
  ∃ real real_obj,
    sys_modules st' !! spec_name spec = Some (Loaded real) ∧
    heap st' !! real = Some real_obj ∧
    (∀ d, real_module d (VModule p) st'
          = (Ok (default (VModule real) (m_dict real_obj !! "__real_module__")), st')) ∧
    (m_dict real_obj !! "__real_module__" = None →
     ∀ d, real_module d (VModule p) st' = (Ok (VModule real), st')) ∧
    (sys_modules st !! spec_name spec ≠ Some (Loaded p) → real ≠ p).
Proof.
  intros (Hp & Hc & Hs & Hl) Ha Hget.
  destruct (first_access_ok _ _ _ _ _ _ _ _ _ Hp Hc Hs Hl Ha Hget)
    as (G & st2 & st3 & real & ro & HG & Hu & Hr & Hi & Hp3 & Hro & -> & Hp5 & Hv).
  destruct (first_access_group _ _ _ _ _ _ _ _ HG Hr Hi) as (Hreal & _ & _).
  set (st' := merge_real p ro (record_real p real st3)) in *.
  assert (Hrec : m_dict (used_proxy o ro real) !! "__real_module__"
                 = Some (default (VModule real) (m_dict ro !! "__real_module__"))).
  { unfold used_proxy. cbn [m_dict set_dict set_class].
    destruct (m_dict ro !! "__real_module__") as [w|] eqn:Ew.
    - by apply lookup_union_Some_l.
    - rewrite lookup_union_r by done. by rewrite lookup_insert_eq. }
  assert (Hobj : ∃ real_obj, heap st' !! real = Some real_obj ∧
            default (VModule real) (m_dict real_obj !! "__real_module__")
            = default (VModule real) (m_dict ro !! "__real_module__")).
  { destruct (decide (real = p)) as [->|Hne].
    - exists (used_proxy o ro p). split; [done|]. rewrite Hrec. cbn.
      unfold record_real in Hro. cbn [heap set_heap] in Hro.
      rewrite lookup_alter_eq, Hp3 in Hro. cbn in Hro. simplify_eq. cbn.
      by rewrite lookup_insert_eq.
    - exists ro. split; [|done]. unfold st', merge_real. cbn [heap set_heap].
      by rewrite lookup_alter_ne. }
  destruct Hobj as (real_obj & Hreal_obj & Hdef).
  assert (Hunwrap : ∀ d, real_module d (VModule p) st'
            = (Ok (default (VModule real) (m_dict real_obj !! "__real_module__")), st')).
  { intros d. unfold real_module.
    by rewrite (getattr_found d p _ st' _ _ Hp5 Hrec), Hdef. }
  exists real, real_obj. split_and!; try done.
  - intros Hnone d. by rewrite Hunwrap, Hnone.
  - intros Hnot ->.
    apply import_module_inv in Hi as (_ & _ & _ & _ & [[Hhit _]|(_ & Hfresh & _)]).
    + apply resolve_inv in Hr as (Hreg & _). rewrite Hreg in Hhit.
      cbn [sys_modules set_sys_modules relinquish set_heap] in Hhit.
      by apply unlock_names_loaded in Hhit.
    + apply resolve_inv in Hr as (_ & _ & Hh & _). rewrite Hh in Hfresh.
      unfold relinquish in Hfresh. cbn [heap set_heap set_sys_modules] in Hfresh.
      by rewrite lookup_alter_eq, Hp in Hfresh.
Qed.


End once.

(** ** A resolved group stays resolved *)

Section resolved.
Context `{Host}.

Lemma keeps_refl (st : State) : keeps_resolved st st.
Proof. by intros g. Qed.

Lemma keeps_trans (st1 st2 st3 : State) :
  keeps_resolved st1 st2 → keeps_resolved st2 st3 → keeps_resolved st1 st3.
Proof. intros H12 H23 g Hg. by apply H23, H12. Qed.

Lemma keeps_same_flags (st st' : State) :
  (∀ g, need_install_of g st' = need_install_of g st) → keeps_resolved st st'.
Proof. intros Heq g Hg. by rewrite Heq. Qed.

Lemma keeps_same_groups (st st' : State) :
  groups st' = groups st → keeps_resolved st st'.
Proof. intros Heq. apply keeps_same_flags. intros g. unfold need_install_of. by rewrite Heq. Qed.

Lemma preserves_ret {A} (a : A) : preserves (mret a).
Proof. intros st r st' Hop. unfold_M. simplify_eq. apply keeps_refl. Qed.

Lemma preserves_raise {A} (e : exn) : preserves (@raise A e).
Proof. intros st r st' Hop. unfold_M. simplify_eq. apply keeps_refl. Qed.

Lemma preserves_bind {A B} (m : M A) (f : A → M B) :
  preserves m → (∀ a, preserves (f a)) → preserves (m ≫= f).
Proof.
  intros Hm Hf st r st' Hop. unfold_M.
  destruct (m st) as [[a|e] st1] eqn:Em.
  - eapply keeps_trans; [by eapply Hm|by eapply Hf].
  - simplify_eq. by eapply Hm.
Qed.

Lemma preserves_modify (f : State → State) :
  (∀ st, groups (f st) = groups st) → preserves (modify f).
Proof. intros Hf st r st' Hop. unfold_M. simplify_eq. by apply keeps_same_groups. Qed.

Lemma preserves_get_module (m : loc) : preserves (get_module m).
Proof.
  intros st r st' Hop. unfold_M. destruct (heap st !! m); simplify_eq; apply keeps_refl.
Qed.

Lemma preserves_unlock (g : gid) : preserves (unlock g).
Proof.
  intros st r st' Hop. rewrite unlock_inv in Hop.
  destruct (groups st !! g); simplify_eq; by apply keeps_same_groups.
Qed.

Lemma preserves_lock (g : gid) : preserves (lock g).
Proof.
  intros st r st' Hop. unfold lock in Hop.
  destruct (groups st !! g); simplify_eq; [|apply keeps_refl].
  destruct (lock_items _ _). simplify_eq. by apply keeps_same_groups.
Qed.

Lemma preserves_resolve (g : gid) : preserves (resolve g).
Proof.
  intros st r st' Hop g' Hg'. apply resolve_inv in Hop as (_ & _ & _ & Hgr & _).
  unfold need_install_of in *. rewrite Hgr. destruct r; [|done].
  destruct (decide (g = g')) as [->|?].
  - rewrite lookup_alter_eq. by destruct (groups st !! g').
  - by rewrite lookup_alter_ne.
Qed.

Lemma preserves_register (g : gid) (module : loc) : preserves (register g module).
Proof.
  intros st r st' Hop. apply register_inv in Hop as (_ & _ & _ & _ & _ & Hflags).
  by apply keeps_same_flags.
Qed.

Lemma preserves_import_module (fullname : string) : preserves (import_module fullname).
Proof.
  intros st r st' Hop. apply import_module_inv in Hop as (_ & Hflags & _).
  by apply keeps_same_flags.
Qed.

Lemma preserves___init__ (requires0 : string) (name0 : option string) :
  preserves (__init__ requires0 name0).
Proof.
  intros st r st' Hop g Hg. unfold __init__ in Hop. simplify_eq.
  unfold need_install_of in *. cbn [groups set_groups].
  rewrite lookup_insert_ne; [done|]. intros <-.
  rewrite (not_elem_of_dom_1 (groups st) (fresh (dom (groups st)))) in Hg; [done|].
  apply is_fresh.
Qed.

Lemma preserves___enter__ (g : gid) : preserves (__enter__ g).
Proof. by apply preserves_modify. Qed.

Lemma preserves___exit__ (g : gid) : preserves (__exit__ g).
Proof.
  intros st r st' Hop. unfold __exit__ in Hop. unfold_M.
  destruct (list_remove _ _); simplify_eq; [|apply keeps_refl].
  eapply keeps_trans; [|by eapply preserves_lock]. by apply keeps_same_groups.
Qed.

Lemma preserves___getattr__ (getattr0 : loc → string → M value) (self : loc) (attr : string) :
  (∀ obj a, preserves (getattr0 obj a)) → preserves (__getattr__ getattr0 self attr).
Proof.
  intros Hget. unfold __getattr__.
  apply preserves_bind; [apply preserves_get_module|intros _].
  apply preserves_bind; [by apply preserves_modify|intros _].
  apply preserves_bind; [apply Hget|intros spec].
  apply preserves_bind.
  { destruct spec; first [apply preserves_ret|apply preserves_raise]. }
  intros group. apply preserves_bind.
  { destruct group; [|apply preserves_raise].
    apply preserves_bind; [apply preserves_unlock|intros _; apply preserves_resolve]. }
  intros _. apply preserves_bind; [apply Hget|intros spec'].
  apply preserves_bind.
  { destruct spec'; first [apply preserves_ret|apply preserves_raise]. }
  intros fullname. apply preserves_bind; [apply preserves_import_module|intros real].
  apply preserves_bind; [by apply preserves_modify|intros _].
  apply preserves_bind; [apply preserves_get_module|intros o].
  apply preserves_bind; [by apply preserves_modify|intros _].
  apply Hget.
Qed.

Lemma preserves_getattr (depth : nat) (obj : loc) (attr : string) :
  preserves (getattr depth obj attr).
Proof.
  revert obj attr. induction depth as [|depth IH]; intros obj attr st r st' Hop;
    cbn [getattr] in Hop.
  - repeat split_match; simplify_eq; apply keeps_refl.
  - destruct (heap st !! obj) as [o|]; simplify_eq; [|apply keeps_refl].
    destruct (m_dict o !! attr); simplify_eq; [apply keeps_refl|].
    destruct (m_class o); simplify_eq; [apply keeps_refl|].
    by eapply preserves___getattr__.
Qed.

Lemma preserves_real_module (depth : nat) (module : value) :
  preserves (real_module depth module).
Proof.
  intros st r st' Hop. unfold real_module in Hop.
  destruct module; try (unfold_M; simplify_eq; apply keeps_refl).
  destruct (getattr depth m "__real_module__" st) as [r0 st0] eqn:Hget.
  apply preserves_getattr in Hget.
  destruct r0 as [v|[]]; by simplify_eq.
Qed.

Lemma run_call_keeps (c : call) (st : State) : keeps_resolved st (run_call c st).
Proof.
  destruct c; cbn [run_call];
    match goal with |- keeps_resolved _ (?op ?s).2 =>
      destruct (op s) as [r st'] eqn:Hop; cbn [snd] end.
  - by eapply preserves___init__.
  - by eapply preserves___enter__.
  - by eapply preserves___exit__.
  - by eapply preserves_register.
  - by eapply preserves_lock.
  - by eapply preserves_unlock.
  - by eapply preserves_resolve.
  - by eapply preserves_import_module.
  - by eapply preserves_getattr.
  - by eapply preserves_real_module.
Qed.

Lemma run_calls_keeps (cs : list call) (st : State) : keeps_resolved st (run_calls cs st).
Proof.
  revert st. induction cs as [|c cs IH]; intros st; cbn; [apply keeps_refl|].
  eapply keeps_trans; [apply run_call_keeps|apply IH].
Qed.

(** C2.  [resolve()] does nothing on a group whose [need_install] is already
    false (the group is resolved); however often it is called, the host sees
    at most one real installation; and a resolved group stays resolved,
    under further calls of [resolve()] and under any sequence of calls into
    the module. *)
Theorem resolve_installs_at_most_once (g : gid) (st : State) (n : nat) :
  (need_install_of g st = Some false → resolve g st = (Ok tt, st)) ∧
  installs (resolve_times n g st) ≤ installs st + 1 ∧
  (∀ k, need_install_of g (resolve_times k g st) = Some false →
        need_install_of g (resolve_times (k + n) g st) = Some false) ∧
  (∀ cs, need_install_of g st = Some false →
         need_install_of g (run_calls cs st) = Some false).
Proof.
  split_and!; [| | |intros cs; apply run_calls_keeps].
  - apply resolve_noop.
  - pose proof (resolve_times_installs n g st). destruct (need_install_of g st) as [[]|]; lia.
  - intros k Hk. replace (k + n) with (n + k) by lia.
    assert (Hsplit : ∀ a b s, resolve_times (a + b) g s
                              = resolve_times a g (resolve_times b g s)).
    { intros a b. revert a. induction b as [|b IHb]; intros a s.
      - by rewrite Nat.add_0_r.
      - replace (a + S b) with (S (a + b)) by lia. cbn [resolve_times]. apply IHb. }
    rewrite Hsplit. by rewrite resolve_times_resolved.
Qed.

End resolved.

(** * Further properties *)

(** ** [unlock] *)

(** X1.  [unlock] of a group never raises, whatever [sys.modules] holds: it
    removes the entries of member names that are [None] and leaves every
    other entry, the module objects and the groups as they are. *)
Theorem unlock_removes_halted_members (g : gid) (G : LazyImportGroup) (st : State) :
  groups st !! g = Some G →
  ∃ st', unlock g st = (Ok tt, st') ∧
         heap st' = heap st ∧ groups st' = groups st ∧
         sys_meta_path st' = sys_meta_path st ∧ procs st' = procs st ∧
         ∀ k, sys_modules st' !! k =
                match sys_modules st !! k with
                | Some Halted => if decide (k ∈ (modules G).*1) then None else Some Halted
                | e => e
                end.
Proof.
  intros HG. rewrite unlock_inv, HG. eexists. split; [done|].
  split_and!; [done..|]. intros k. cbn [sys_modules set_sys_modules].
  apply unlock_names_lookup.
Qed.

(** X2.  [unlock] twice is [unlock] once: the second call finds nothing to
    remove. *)
Theorem unlock_idempotent (g : gid) (st : State) (r : outcome unit) (st' : State) :
  unlock g st = (r, st') → unlock g st' = (r, st').
Proof.
  rewrite !unlock_inv. destruct (groups st !! g) as [G|] eqn:HG; intros ?; simplify_eq.
  - cbn [groups set_sys_modules]. rewrite HG. f_equal.
    apply set_sys_modules_id. cbn [sys_modules set_sys_modules].
    apply unlock_names_id. intros n Hn. by apply unlock_names_not_halted.
  - by rewrite HG.
Qed.

(** ** [lock] *)

(** X3.  When every member name is a key of [sys.modules], [lock] returns
    and halts exactly the names that [sys.modules] maps to the member
    itself: a name that holds another module by now, such as the real one,
    keeps it.  The modules, the groups, [sys.meta_path] and the processes are
    as before. *)
Theorem lock_halts_own_members (g : gid) (G : LazyImportGroup) (st : State) :
  groups st !! g = Some G →
  (∀ n, n ∈ (modules G).*1 → is_Some (sys_modules st !! n)) →
  ∃ st', lock g st = (Ok tt, st') ∧
         heap st' = heap st ∧ groups st' = groups st ∧
         sys_meta_path st' = sys_meta_path st ∧ procs st' = procs st ∧
         ∀ k, sys_modules st' !! k =
                match sys_modules st !! k with
                | Some (Loaded m) =>
                    if decide ((k, m) ∈ modules G) then Some Halted else Some (Loaded m)
                | e => e
                end.
Proof.
  intros HG Hall. unfold lock. rewrite HG.
  destruct (lock_items_total _ _ Hall) as [reg' Hl]. rewrite Hl.
  eexists. split; [done|]. split_and!; [done..|].
  intros k. cbn [sys_modules set_sys_modules]. by apply lock_items_lookup.
Qed.

Lemma lock_items_app (l1 l2 : list (string * loc)) (reg : gmap string entry) :
  lock_items (l1 ++ l2) reg =
    match lock_items l1 reg with
    | (Ok _, reg1) => lock_items l2 reg1
    | r => r
    end.
Proof.
  revert reg. induction l1 as [|[n m] l1 IH]; intros reg; cbn [app lock_items]; [done|].
  destruct (reg !! n) as [e|]; [|done]. by case_decide.
Qed.

Lemma lock_items_keys (items : list (string * loc)) (reg : gmap string entry)
    (r : outcome unit) (reg' : gmap string entry) (k : string) :
  lock_items items reg = (r, reg') → (reg' !! k = None ↔ reg !! k = None).
Proof.
  revert reg. induction items as [|[n m] items IH]; intros reg Hl; cbn [lock_items] in Hl.
  - by simplify_eq.
  - destruct (reg !! n) as [e|] eqn:En; [|by simplify_eq].
    case_decide; [|by apply IH].
    rewrite (IH _ Hl). destruct (decide (k = n)) as [->|?].
    + rewrite lookup_insert_eq, En. done.
    + by rewrite lookup_insert_ne.
Qed.

(** X4.  When [lock] raises [KeyError] at a member name that is no key of
    [sys.modules], nothing is rolled back: the members that come earlier in
    the group's dict and were in [sys.modules] are halted already. *)
Theorem lock_KeyError_keeps_earlier (g : gid) (G : LazyImportGroup) (st : State)
    (before after : list (string * loc)) (k : string) (m : loc) :
  groups st !! g = Some G →
  modules G = before ++ (k, m) :: after →
  (∀ n, n ∈ before.*1 → is_Some (sys_modules st !! n)) →
  sys_modules st !! k = None →
  ∃ st', lock g st = (Raise (KeyError k), st') ∧
         (∀ n x, (n, x) ∈ before → sys_modules st !! n = Some (Loaded x) →
                 sys_modules st' !! n = Some Halted) ∧
         (∀ n x, sys_modules st !! n = Some (Loaded x) → (n, x) ∉ before →
                 sys_modules st' !! n = Some (Loaded x)).
Proof.
  intros HG Hmods Hall Hk. unfold lock. rewrite HG, Hmods, lock_items_app.
  destruct (lock_items_total before (sys_modules st) Hall) as [reg1 H1]. rewrite H1.
  cbn [lock_items].
  assert (Hk1 : reg1 !! k = None) by by apply (lock_items_keys _ _ _ _ k H1).
  rewrite Hk1. eexists. split; [done|]. cbn [sys_modules set_sys_modules]. split.
  - intros n x Hin Hn. rewrite (lock_items_lookup _ _ _ n H1), Hn. by rewrite decide_True.
  - intros n x Hn Hnot. rewrite (lock_items_lookup _ _ _ n H1), Hn. by rewrite decide_False.
Qed.

(** X5.  [lock] followed by [unlock] does not put the placeholders back:
    the entries that held a member are gone from [sys.modules], as are the
    member names that were [None] before; the other entries are untouched. *)
Theorem lock_then_unlock (g : gid) (G : LazyImportGroup) (st st1 : State) :
  groups st !! g = Some G →
  lock g st = (Ok tt, st1) →
  ∃ st2, unlock g st1 = (Ok tt, st2) ∧
         ∀ k, sys_modules st2 !! k =
                match sys_modules st !! k with
                | Some (Loaded m) =>
                    if decide ((k, m) ∈ modules G) then None else Some (Loaded m)
                | Some Halted => if decide (k ∈ (modules G).*1) then None else Some Halted
                | None => None
                end.
Proof.
  intros HG Hlock. unfold lock in Hlock. rewrite HG in Hlock.
  destruct (lock_items (modules G) (sys_modules st)) as [r reg1] eqn:Hl. simplify_eq.
  rewrite unlock_inv. cbn [groups set_sys_modules]. rewrite HG.
  eexists. split; [done|]. intros k. cbn [sys_modules set_sys_modules].
  rewrite unlock_names_lookup, (lock_items_lookup _ _ _ k Hl).
  destruct (sys_modules st !! k) as [[|m]|]; [done| |done].
  destruct (decide ((k, m) ∈ modules G)) as [Hin|Hnot]; [|done].
  rewrite decide_True; [done|]. apply list_elem_of_fmap. by exists (k, m).
Qed.

(** X6.  A second [lock] finds nothing left to halt: [lock] after a [lock]
    that returned also returns and changes nothing. *)
Theorem lock_again_changes_nothing (g : gid) (st st1 : State) :
  lock g st = (Ok tt, st1) → lock g st1 = (Ok tt, st1).
Proof.
  unfold lock. destruct (groups st !! g) as [G|] eqn:HG; [|done].
  destruct (lock_items (modules G) (sys_modules st)) as [r reg1] eqn:Hl.
  intros ?; simplify_eq. cbn [groups sys_modules set_sys_modules]. rewrite HG.
  assert (Hall : ∀ n, n ∈ (modules G).*1 → is_Some (reg1 !! n)).
  { intros n Hn. apply not_eq_None_Some. rewrite (lock_items_keys _ _ _ _ n Hl).
    intros Hnone. destruct (lock_items_missing (modules G) (sys_modules st))
      as (k' & reg' & Hl' & _); [|congruence].
    apply list_elem_of_fmap in Hn as [[n' m'] [-> Hin]]. by exists n', m'. }
  destruct (lock_items_total _ _ Hall) as [reg2 H2]. rewrite H2.
  assert (reg2 = reg1) as ->.
  { apply map_eq. intros k. rewrite (lock_items_lookup _ _ _ k H2).
    destruct (reg1 !! k) as [[|m]|] eqn:Ek; [done| |done].
    rewrite decide_False; [done|]. intros Hin.
    rewrite (lock_items_lookup _ _ _ k Hl) in Ek.
    destruct (sys_modules st !! k) as [[|m0]|]; simplify_eq.
    case_decide; by simplify_eq. }
  by destruct st.
Qed.

(** ** [__enter__] and [__exit__] *)

Lemma list_remove_absent (x : finder) (l : list finder) :
  x ∉ l → list_remove x l = None.
Proof.
  induction l as [|y l IH]; cbn; [done|]. intros Hx.
  rewrite decide_False by set_solver. rewrite IH by set_solver. done.
Qed.

Lemma list_remove_first (x : finder) (l1 l2 : list finder) :
  x ∉ l1 → list_remove x (l1 ++ x :: l2) = Some (l1 ++ l2).
Proof.
  induction l1 as [|y l1 IH]; cbn; intros Hx.
  - by rewrite decide_True.
  - rewrite decide_False by set_solver. rewrite IH by set_solver. done.
Qed.

(** X7.  Leaving a scope that was not entered raises [ValueError] before
    [lock] is reached: nothing is halted and the state is unchanged. *)
Theorem exit_without_enter (g : gid) (st : State) :
  VeryLazyFinder g ∉ sys_meta_path st →
  __exit__ g st = (Raise ValueError, st).
Proof.
  intros Habsent. unfold __exit__. unfold_M. by rewrite list_remove_absent.
Qed.

(** X8.  [__exit__] takes the group's own finder out of [sys.meta_path],
    wherever it stands, keeps the other finders in their order, and then
    locks: scopes of different groups need not be left in the order they
    were entered. *)
Theorem exit_removes_own_finder (g : gid) (st : State) (l1 l2 : list finder) :
  sys_meta_path st = l1 ++ VeryLazyFinder g :: l2 →
  VeryLazyFinder g ∉ l1 →
  __exit__ g st = lock g (set_sys_meta_path (λ _, l1 ++ l2) st) ∧
  sys_meta_path (__exit__ g st).2 = l1 ++ l2.
Proof.
  intros Hmp Hfirst. unfold __exit__. unfold_M. rewrite Hmp, list_remove_first by done.
  split; [done|]. unfold lock. cbn [groups set_sys_meta_path sys_modules].
  destruct (groups st !! g); [|done]. by destruct (lock_items _ _).
Qed.

(** ** Imports inside a scope *)

Section scope_more.
Context `{Host}.

(** X9.  While the finder of a group is first in [sys.meta_path], importing a
    top-level name that [sys.modules] does not have makes a new pending
    proxy of the group, enters it in [sys.modules] and in the group, and
    runs nothing: the outcome is the same on every host, whether or not a
    genuine module of that name exists.  Importing the name again gives the
    same proxy.  (For a dotted name the machinery imports the parent
    packages first; that is outside this statement.) *)
Theorem import_inside_scope_makes_proxy (g : gid) (G : LazyImportGroup)
    (mp : list finder) (fullname : string) (st : State) :
  occurs "." fullname = false →
  sys_meta_path st = VeryLazyFinder g :: mp →
  groups st !! g = Some G →
  sys_modules st !! fullname = None →
  ∃ m o st',
    import_module fullname st = (Ok m, st') ∧
    heap st !! m = None ∧
    pending st' m o (find_spec g fullname) g ∧
    m_dict o = init_module_attrs (find_spec g fullname) ∧
    sys_modules st' = <[fullname := Loaded m]> (sys_modules st) ∧
    (∃ G', groups st' !! g = Some G' ∧ (fullname, m) ∈ modules G' ∧
           need_install G' = need_install G) ∧
    sys_meta_path st' = sys_meta_path st ∧ procs st' = procs st ∧
    import_module fullname st' = (Ok m, st') ∧
    (∀ H' : Host, @import_module H' fullname st = (Ok m, st')).
Proof.
  intros _ Hmp HG Hreg.
  pose proof (import_in_scope g G mp fullname st Hmp HG Hreg) as Hi. cbn zeta in Hi.
  set (m := fresh (dom (heap st))) in *.
  eexists m, _, _. split; [exact Hi|].
  split; [apply fresh_loc_unused|].
  split.
  { unfold pending. cbn [heap set_heap set_groups set_sys_modules].
    rewrite lookup_alter_eq, lookup_insert_eq. cbn [fmap option_fmap option_map].
    split; [done|]. split; [done|]. cbn [m_dict set_class].
    split; [apply init_module_attrs_spec|done]. }
  split; [done|]. split; [done|]. split.
  { eexists. cbn [groups set_groups]. rewrite lookup_insert_eq. split; [done|].
    split; [apply dict_set_in|done]. }
  split; [done|]. split; [done|]. split.
  { unfold import_module. cbn [sys_modules set_groups set_heap set_sys_modules].
    by rewrite lookup_insert_eq. }
  intros H'. apply (import_in_scope (H:=H') g G mp fullname st Hmp HG Hreg).
Qed.

Lemma dict_set_elem {V} (k : string) (v : V) (d : list (string * V)) (n : string) (x : V) :
  (n, x) ∈ dict_set k v d → (n, x) = (k, v) ∨ (n, x) ∈ d.
Proof.
  induction d as [|[k' v'] d IH]; cbn.
  - intros ?%list_elem_of_singleton. by left.
  - case_decide as Hk; intros [Heq|Hin]%elem_of_cons.
    + by left.
    + right. set_solver.
    + right. set_solver.
    + destruct (IH Hin) as [?|?]; [by left|right; set_solver].
Qed.

(** An import inside the scope keeps the members pending and registered. *)
Lemma import_keeps_members_pending (g : gid) (mp : list finder) (k : string) (st : State) :
  sys_meta_path st = VeryLazyFinder g :: mp →
  members_pending g st →
  sys_modules st !! k ≠ Some Halted →
  ∃ m st', import_module k st = (Ok m, st') ∧
           sys_meta_path st' = sys_meta_path st ∧ procs st' = procs st ∧
           members_pending g st' ∧
           (∀ n, sys_modules st' !! n = Some Halted → sys_modules st !! n = Some Halted).
Proof.
  intros Hmp (G & HG & Hmem) Hnh.
  destruct (sys_modules st !! k) as [[|m]|] eqn:Ek; [done| |].
  - exists m, st. unfold import_module. rewrite Ek. split_and!; try done. by exists G.
  - pose proof (import_in_scope g G mp k st Hmp HG Ek) as Hi. cbn zeta in Hi.
    set (m := fresh (dom (heap st))) in *.
    assert (Hfresh : heap st !! m = None) by apply fresh_loc_unused.
    eexists m, _. split; [exact Hi|]. split; [done|]. split; [done|]. split.
    + eexists. cbn [groups set_groups]. rewrite lookup_insert_eq. split; [done|].
      cbn [modules]. intros n x [Heq|Hold]%dict_set_elem.
      * simplify_eq. cbn [sys_modules set_groups set_heap set_sys_modules].
        rewrite lookup_insert_eq. split; [done|]. eexists. unfold pending.
        cbn [heap set_heap set_groups set_sys_modules].
        rewrite lookup_alter_eq, lookup_insert_eq. cbn [fmap option_fmap option_map].
        split; [done|]. split; [done|]. cbn [m_dict set_class].
        split; [apply init_module_attrs_spec|done].
      * destruct (Hmem n x Hold) as (Hn & o & Hp & Hrest).
        assert (n ≠ k) by congruence. assert (x ≠ m) by congruence.
        cbn [sys_modules set_groups set_heap set_sys_modules].
        rewrite lookup_insert_ne by done. split; [done|]. exists o. split; [|done].
        cbn [heap set_heap set_groups set_sys_modules].
        rewrite lookup_alter_ne, lookup_insert_ne by done. done.
    + intros n. cbn [sys_modules set_groups set_heap set_sys_modules].
      destruct (decide (k = n)) as [->|?].
      * by rewrite lookup_insert_eq.
      * by rewrite lookup_insert_ne.
Qed.

Lemma import_all_keeps_members_pending (g : gid) (mp : list finder)
    (names : list string) (st : State) :
  sys_meta_path st = VeryLazyFinder g :: mp →
  members_pending g st →
  (∀ n, n ∈ names → sys_modules st !! n ≠ Some Halted) →
  ∃ st', import_all names st = (Ok tt, st') ∧
         sys_meta_path st' = sys_meta_path st ∧ procs st' = procs st ∧
         members_pending g st'.
Proof.
  revert st. induction names as [|k names IH]; intros st Hmp Hmem Hnh.
  - exists st. by split_and!.
  - destruct (import_keeps_members_pending g mp k st Hmp Hmem)
      as (m & st1 & Hi & Hmp1 & Hp1 & Hmem1 & Hh1); [apply Hnh; set_solver|].
    destruct (IH st1) as (st' & Hall & Hmp' & Hp' & Hmem'); [congruence|done| |].
    { intros n Hn Hhalted. apply (Hnh n); [set_solver|]. by apply Hh1. }
    exists st'. cbn [import_all]. unfold_M. rewrite Hi, Hall.
    split_and!; [done|congruence|congruence|done].
Qed.

(** X10.  The whole [with] block of a group without members yet, importing
    top-level names that [sys.modules] does not have: it returns,
    [sys.meta_path] is as before, no process has been started, and every
    imported name is halted in [sys.modules] while its proxy, a member of
    the group, is still pending. *)
Theorem scope_of_fresh_group (g : gid) (G : LazyImportGroup) (names : list string) (st : State) :
  groups st !! g = Some G →
  modules G = [] →
  (∀ n, n ∈ names → occurs "." n = false) →
  (∀ n, n ∈ names → sys_modules st !! n = None) →
  ∃ st', with_ g (import_all names) st = (Ok tt, st') ∧
         sys_meta_path st' = sys_meta_path st ∧ procs st' = procs st ∧
         ∀ n, n ∈ names →
              sys_modules st' !! n = Some Halted ∧
              ∃ m o G', groups st' !! g = Some G' ∧ (n, m) ∈ modules G' ∧
                        pending st' m o (find_spec g n) g.
Proof.
  intros HG Hempty _ Hnone.
  set (st0 := set_sys_meta_path (λ mp, VeryLazyFinder g :: mp) st).
  assert (Hmem0 : members_pending g st0).
  { exists G. split; [done|]. rewrite Hempty. intros n m Hin. by apply elem_of_nil in Hin. }
  destruct (import_all_keeps_members_pending g (sys_meta_path st) names st0)
    as (st1 & Hall & Hmp1 & Hp1 & (G1 & HG1 & Hmem1)); [done|done| |].
  { intros n Hn. cbn. by rewrite (Hnone n Hn). }
  destruct (import_all_in_scope g G (sys_meta_path st) names st0 _ _ eq_refl HG Hall)
    as (_ & _ & _ & Hnew).
  assert (Hkeys : ∀ n, n ∈ (modules G1).*1 → is_Some (sys_modules st1 !! n)).
  { intros n [[n' m'] [-> Hin]]%list_elem_of_fmap. destruct (Hmem1 n' m' Hin) as [Hn' _].
    cbn [fst]. rewrite Hn'. by eexists. }
  destruct (lock_items_total _ _ Hkeys) as [reg2 Hlock].
  unfold with_, __enter__, finally. unfold_M. fold st0. rewrite Hall.
  unfold __exit__. unfold_M. rewrite Hmp1. unfold st0 at 1.
  cbn [sys_meta_path set_sys_meta_path list_remove].
  rewrite decide_True by done. unfold lock.
  cbn [groups set_sys_meta_path sys_modules]. rewrite HG1, Hlock.
  eexists. split; [done|]. split; [done|]. split; [done|].
  intros n Hn. destruct (Hnew eq_refl n Hn) as (m & G' & HG' & Hin & Hreg).
  { cbn. by apply Hnone. }
  simplify_eq. cbn [sys_modules set_sys_modules set_sys_meta_path].
  split.
  - rewrite (lock_items_lookup _ _ _ n Hlock), Hreg. by rewrite decide_True.
  - destruct (Hmem1 n m Hin) as (_ & o & Hpend). exists m, o, G1. split; [done|].
    split; [done|]. exact Hpend.
Qed.

End scope_more.

(** ** More on [resolve] *)

Lemma rsplit_absent (sep : ascii) (s : string) :
  occurs sep s = false → rsplit sep s = None.
Proof.
  induction s as [|c s IH]; cbn; [done|].
  intros [Hc Hs]%orb_false_elim. by rewrite IH, Hc.
Qed.

Lemma rsplit_last (sep : ascii) (before after : string) :
  occurs sep after = false →
  rsplit sep (before +:+ String sep after) = Some (before, after).
Proof.
  intros Hafter. induction before as [|c before IH]; simpl.
  - by rewrite rsplit_absent, Ascii.eqb_refl.
  - by rewrite IH.
Qed.

Section resolve_more.
Context `{Host}.

(** X13.  The locator is cut at its last colon: what stands before it is
    the package, what stands after it the resource, so the package part may
    hold colons and the resource part cannot.  Without any colon the package
    is the empty string.  That pair is what is looked for (the package a
    top-level name); when the lookup raises, [resolve()] raises the same
    before it has done anything, as when the package is a genuine one that
    cannot hand the resource out. *)
Theorem resolve_cuts_locator_at_last_colon (g : gid) (G : LazyImportGroup) (st : State)
    (pak req : string) :
  groups st !! g = Some G →
  need_install G = true →
  occurs ":" req = false →
  occurs "." pak = false →
  (requires G = pak +:+ ":" +:+ req →
   (∀ e, locate pak req st = (Raise e, st) → resolve g st = (Raise e, st)) ∧
   (∀ s, util_find_spec pak st = (Ok (VSpec s), st) →
         spec_loader s = HostLoader → is_package s = true →
         host_locate (spec_name s) req = None →
         resolve g st = (Raise (ResourceError pak req), st))) ∧
  (requires G = req →
   ∀ e, locate "" req st = (Raise e, st) → resolve g st = (Raise e, st)).
Proof.
  intros HG Hneed Hreq _.
  assert (Hfail : ∀ pak0 e, rpartition ":" (requires G) = (pak0, req) →
            locate pak0 req st = (Raise e, st) → resolve g st = (Raise e, st)).
  { intros pak0 e Hcut Hloc. unfold resolve. unfold_M.
    rewrite HG, Hneed. cbn [negb]. by rewrite Hcut, Hloc. }
  split; intros Hrequires.
  - assert (Hcut : rpartition ":" (requires G) = (pak, req)).
    { unfold rpartition. rewrite Hrequires.
      change (pak +:+ ":" +:+ req) with (pak +:+ String ":" req).
      by rewrite rsplit_last. }
    split; [intros e; by apply Hfail|].
    intros s Hfound Hloader Hpackage Hloc. apply (Hfail pak); [done|].
    unfold locate. unfold_M. rewrite Hfound. cbn [dummy_from_spec].
    unfold_M. by rewrite Hpackage, Hloader, Hloc.
  - intros e. apply Hfail. unfold rpartition. by rewrite Hrequires, rsplit_absent.
Qed.








End resolve_more.

(** ** More on the first use *)

Section first_use_more.
Context `{Host}.

Lemma __getattr___depth (d1 d2 : nat) (self : loc) (attr : string) (st : State) :
  __getattr__ (getattr d1) self attr st = __getattr__ (getattr d2) self attr st.
Proof.
  unfold __getattr__. unfold_M.
  destruct (heap st !! self) as [o|] eqn:Hself; [|done].
  set (st0 := set_heap _ st).
  assert (Hp0 : heap st0 !! self = Some (set_class ModuleType o)).
  { unfold st0. cbn [heap set_heap]. by rewrite lookup_alter_eq, Hself. }
  rewrite !(getattr_plain _ self "__spec__" st0 _ Hp0) by done.
  destruct (m_dict (set_class ModuleType o) !! "__spec__") as [v|]; [|done].
  destruct v as [| | | | |spec|]; try done.
  destruct (loader_state spec) as [g|]; [|done].
  rewrite unlock_inv. destruct (groups st0 !! g) as [G|]; [|done].
  set (st1 := set_sys_modules _ st0).
  destruct (resolve g st1) as [[[]|e] st2] eqn:Hr; [|done].
  assert (Hp2 : heap st2 !! self = Some (set_class ModuleType o)).
  { apply resolve_inv in Hr as (_ & _ & -> & _). done. }
  rewrite !(getattr_plain _ self "__spec__" st2 _ Hp2) by done.
  destruct (m_dict (set_class ModuleType o) !! "__spec__") as [v|]; [|done].
  destruct v as [| | | | |spec'|]; try done.
  destruct (import_module (spec_name spec') st2) as [[real|e] st3] eqn:Hi; [|done].
  assert (Hp3 : heap st3 !! self = Some (set_class ModuleType o)).
  { apply import_module_inv in Hi as (Hold & _). by apply Hold. }
  set (st4 := set_heap _ st3).
  destruct (heap st4 !! real) as [ro|]; [|done].
  set (st5 := set_heap _ st4).
  assert (Hp5 : ∃ o5, heap st5 !! self = Some o5 ∧ m_class o5 = ModuleType).
  { eexists. unfold st5, st4. cbn [heap set_heap].
    rewrite !lookup_alter_eq, Hp3. done. }
  destruct Hp5 as (o5 & Hp5 & Hc5).
  by rewrite !(getattr_plain _ self attr st5 _ Hp5) by done.
Qed.

(** X14.  [__getattr__] never runs inside itself: it makes [self] a plain
    module before it reads anything from [self], so one level of nesting is
    all an attribute access ever needs, however it ends. *)
Theorem getattr_depth_irrelevant (depth : nat) (obj : loc) (attr : string) (st : State) :
  getattr (S depth) obj attr st = getattr 1 obj attr st.
Proof.
  cbn [getattr]. destruct (heap st !! obj) as [o|]; [|done].
  destruct (m_dict o !! attr); [done|].
  destruct (m_class o); [reflexivity|].
  exact (__getattr___depth depth 0 obj attr st).
Qed.

(** X15.  The first use of a proxy whose group is resolved already starts no
    process: the installation is not run again for the second member of a
    group. *)
Theorem first_use_in_resolved_group_runs_nothing (depth : nat) (p : loc) (attr : string)
    (st : State) (spec : ModuleSpec) (g : gid) (o : module_obj)
    (r : outcome value) (st' : State) :
  pending st p o spec g →
  m_dict o !! attr = None →
  need_install_of g st = Some false →
  getattr (S depth) p attr st = (r, st') →
  procs st' = procs st ∧ need_install_of g st' = Some false.
Proof.
  intros (Hp & Hc & Hs & Hl) Ha Hflag Hget.
  rewrite (first_access depth p attr st spec g o Hp Hc Hs Hl Ha) in Hget.
  rewrite unlock_inv in Hget.
  assert (Hgr : groups (relinquish p st) = groups st) by done.
  rewrite Hgr in Hget.
  destruct (groups st !! g) as [G|] eqn:HG;
    [|unfold need_install_of in Hflag; by rewrite HG in Hflag].
  set (st1 := set_sys_modules _ _) in *.
  assert (Hflag1 : need_install_of g st1 = Some false) by done.
  rewrite (resolve_noop g st1 Hflag1) in Hget.
  destruct (import_module (spec_name spec) st1) as [[real|e] st3] eqn:Hi.
  2:{ injection Hget as <- <-.
      apply import_module_inv in Hi as (_ & Hn & Hprocs & _).
      split; [done|]. by rewrite Hn. }
  pose proof Hi as (Hold & Hn & Hprocs & _)%import_module_inv.
  destruct (heap (record_real p real st3) !! real) as [ro|] eqn:Hro.
  2:{ injection Hget as <- <-. split; [done|]. by rewrite <- Hflag1, <- Hn. }
  assert (Hp3 : heap st3 !! p = Some (set_class ModuleType o)).
  { apply Hold. unfold st1, relinquish. cbn [heap set_heap set_sys_modules].
    by rewrite lookup_alter_eq, Hp. }
  assert (Hp5 : heap (merge_real p ro (record_real p real st3)) !! p
                = Some (used_proxy o ro real)).
  { unfold merge_real, record_real, used_proxy. cbn [heap set_heap].
    by rewrite !lookup_alter_eq, Hp3. }
  rewrite (getattr_plain depth p attr _ _ Hp5) in Hget by done.
  injection Hget as <- <-. split; [done|]. by rewrite <- Hflag1, <- Hn.
Qed.

(** X16.  A first use stays inside its group: names that are halted and are
    not members of the proxy's group are still halted afterwards, however
    the access ends, and [need_install] of every other group is as before. *)
Theorem first_use_leaves_other_groups (depth : nat) (p : loc) (attr : string)
    (st : State) (spec : ModuleSpec) (g : gid) (G : LazyImportGroup) (o : module_obj)
    (r : outcome value) (st' : State) :
  pending st p o spec g →
  m_dict o !! attr = None →
  groups st !! g = Some G →
  getattr (S depth) p attr st = (r, st') →
  (∀ k, k ∉ (modules G).*1 → sys_modules st !! k = Some Halted →
        sys_modules st' !! k = Some Halted) ∧
  (∀ g', g' ≠ g → need_install_of g' st' = need_install_of g' st).
Proof.
  intros (Hp & Hc & Hs & Hl) Ha HG Hget.
  rewrite (first_access depth p attr st spec g o Hp Hc Hs Hl Ha) in Hget.
  rewrite unlock_inv in Hget.
  assert (Hgr : groups (relinquish p st) = groups st) by done.
  rewrite Hgr, HG in Hget.
  set (st1 := set_sys_modules _ _) in *.
  assert (Hreg1 : ∀ k, k ∉ (modules G).*1 → sys_modules st !! k = Some Halted →
                       sys_modules st1 !! k = Some Halted).
  { intros k Hk Hh. unfold st1. cbn [sys_modules set_sys_modules relinquish set_heap].
    rewrite unlock_names_lookup, Hh. by rewrite decide_False. }
  assert (Hflags1 : ∀ g', need_install_of g' st1 = need_install_of g' st) by done.
  destruct (resolve g st1) as [rr st2] eqn:Hr.
  assert (Hreg2 : sys_modules st2 = sys_modules st1)
    by (by apply resolve_inv in Hr as (? & _)).
  assert (Hflags2 : ∀ g', g' ≠ g → need_install_of g' st2 = need_install_of g' st1).
  { intros g' Hne. apply resolve_inv in Hr as (_ & _ & _ & Hgroups & _).
    unfold need_install_of. rewrite Hgroups. destruct rr; [|done].
    by rewrite lookup_alter_ne. }
  destruct rr as [[]|e].
  2:{ simplify_eq. split.
      - intros k Hk Hh. rewrite Hreg2. by apply Hreg1.
      - intros g' Hne. by rewrite Hflags2, Hflags1. }
  destruct (import_module (spec_name spec) st2) as [ri st3] eqn:Hi.
  pose proof Hi as (_ & Hn & _ & _ & Hres)%import_module_inv.
  assert (Hreg3 : ∀ k, sys_modules st2 !! k = Some Halted →
                       sys_modules st3 !! k = Some Halted).
  { intros k Hh. destruct ri as [real|e].
    - destruct Hres as [[_ ->]|(Hnone & _ & _ & ->)]; [done|].
      rewrite lookup_insert_ne; [done|]. intros Heq. rewrite Heq in Hnone. congruence.
    - destruct Hres as [-> _]. done. }
  assert (Hend : sys_modules st' = sys_modules st3 ∧ groups st' = groups st3).
  { destruct ri as [real|e]; [|by simplify_eq].
    destruct (heap (record_real p real st3) !! real) as [ro|]; [|by simplify_eq].
    destruct (getattr depth p attr _) as [r5 st5] eqn:Hg5.
    assert (∃ o5, heap (merge_real p ro (record_real p real st3)) !! p = Some o5
                  ∧ m_class o5 = ModuleType) as (o5 & Hp5 & Hc5).
    { assert (Hp3 : heap st3 !! p = Some (set_class ModuleType o)).
      { apply import_module_inv in Hi as (Hold & _). apply Hold.
        apply resolve_inv in Hr as (_ & _ & -> & _).
        unfold st1, relinquish. cbn [heap set_heap set_sys_modules].
        by rewrite lookup_alter_eq, Hp. }
      eexists. unfold merge_real, record_real. cbn [heap set_heap].
      rewrite !lookup_alter_eq, Hp3. done. }
    rewrite (getattr_plain depth p attr _ _ Hp5 Hc5) in Hg5. by simplify_eq. }
  destruct Hend as [Hregs Hgroups]. split.
  - intros k Hk Hh. rewrite Hregs. apply Hreg3. rewrite Hreg2. by apply Hreg1.
  - intros g' Hne. unfold need_install_of at 1. rewrite Hgroups.
    fold (need_install_of g' st3). by rewrite Hn, Hflags2, Hflags1.
Qed.


End first_use_more.

(** ** One installation for each group, over any run *)

Lemma unresolved_same (st st' : State) :
  (∀ g, need_install_of g st' = need_install_of g st) →
  unresolved st' = unresolved st.
Proof.
  intros Hflags. unfold unresolved, flags. do 2 f_equal.
  apply map_eq. intros g. rewrite !lookup_fmap. apply Hflags.
Qed.

Lemma unresolved_resolve (g : gid) (st st' : State) :
  need_install_of g st = Some true →
  groups st' = alter (set_need_install false) g (groups st) →
  S (unresolved st') = unresolved st.
Proof.
  unfold need_install_of, unresolved, flags. intros Hg ->.
  assert (Hflags : need_install <$> alter (set_need_install false) g (groups st)
                   = <[g := false]> (need_install <$> groups st)).
  { apply map_eq. intros g'. rewrite lookup_fmap.
    destruct (decide (g = g')) as [<-|?].
    - rewrite lookup_alter_eq, lookup_insert_eq. by destruct (groups st !! g).
    - by rewrite lookup_alter_ne, lookup_insert_ne, lookup_fmap. }
  rewrite Hflags, map_filter_insert_False, map_filter_delete by done.
  rewrite map_size_delete_Some.
  2:{ exists true. apply map_lookup_filter_Some. by rewrite lookup_fmap. }
  assert (size (filter (λ kv : gid * bool, kv.2 = true) (need_install <$> groups st)) ≠ 0);
    [|lia].
  intros Hsize%map_size_empty_inv.
  assert (Hin : filter (λ kv : gid * bool, kv.2 = true) (need_install <$> groups st) !! g
                = Some true).
  { apply map_lookup_filter_Some. by rewrite lookup_fmap. }
  by rewrite Hsize in Hin.
Qed.

Lemma unresolved_init (requires0 : string) (name0 : option string) (st : State) :
  unresolved (__init__ requires0 name0 st).2 = S (unresolved st).
Proof.
  unfold unresolved, flags, __init__. cbn [snd groups set_groups].
  rewrite fmap_insert. cbn [need_install].
  rewrite map_filter_insert_True by done. apply map_size_insert_None.
  apply map_lookup_filter_None. left. rewrite lookup_fmap.
  assert (Hfresh : groups st !! fresh (dom (groups st)) = None)
    by apply not_elem_of_dom, is_fresh.
  by rewrite Hfresh.
Qed.

Section frugal.
Context `{Host}.

Lemma frugal_same {A} (op : M A) :
  (∀ st r st', op st = (r, st') →
     (∀ g, need_install_of g st' = need_install_of g st) ∧ procs st' = procs st) →
  frugal op.
Proof.
  intros Hop st r st' [Hflags Hprocs]%Hop.
  rewrite (unresolved_same _ _ Hflags). unfold installs. by rewrite Hprocs.
Qed.

Lemma frugal_ret {A} (a : A) : frugal (mret a).
Proof. apply frugal_same. intros st r st' Hop. unfold_M. by simplify_eq. Qed.

Lemma frugal_raise {A} (e : exn) : frugal (@raise A e).
Proof. apply frugal_same. intros st r st' Hop. unfold_M. by simplify_eq. Qed.

Lemma frugal_bind {A B} (m : M A) (f : A → M B) :
  frugal m → (∀ a, frugal (f a)) → frugal (m ≫= f).
Proof.
  intros Hm Hf st r st' Hop. unfold_M.
  destruct (m st) as [[a|e] st1] eqn:Em.
  - apply Hm in Em. apply Hf in Hop. lia.
  - simplify_eq. by apply Hm in Em.
Qed.

Lemma frugal_modify (f : State → State) :
  (∀ st, groups (f st) = groups st) → (∀ st, procs (f st) = procs st) →
  frugal (modify f).
Proof.
  intros Hg Hp. apply frugal_same. intros st r st' Hop. unfold_M. simplify_eq.
  split; [|done]. intros g. unfold need_install_of. by rewrite Hg.
Qed.

Lemma frugal_get_module (m : loc) : frugal (get_module m).
Proof.
  apply frugal_same. intros st r st' Hop. unfold_M.
  destruct (heap st !! m); by simplify_eq.
Qed.

Lemma frugal_unlock (g : gid) : frugal (unlock g).
Proof.
  apply frugal_same. intros st r st' Hop. rewrite unlock_inv in Hop.
  destruct (groups st !! g); by simplify_eq.
Qed.

Lemma frugal_lock (g : gid) : frugal (lock g).
Proof.
  apply frugal_same. intros st r st' Hop. unfold lock in Hop.
  destruct (groups st !! g); [|by simplify_eq].
  destruct (lock_items _ _). by simplify_eq.
Qed.

Lemma frugal_register (g : gid) (module : loc) : frugal (register g module).
Proof.
  apply frugal_same. intros st r st' Hop.
  by apply register_inv in Hop as (_ & _ & _ & Hprocs & _ & Hflags).
Qed.

Lemma frugal_import_module (fullname : string) : frugal (import_module fullname).
Proof.
  apply frugal_same. intros st r st' Hop.
  by apply import_module_inv in Hop as (_ & Hflags & Hprocs & _).
Qed.

Lemma frugal_resolve (g : gid) : frugal (resolve g).
Proof.
  intros st r st' Hop.
  destruct (need_install_of g st) as [[]|] eqn:Hflag.
  - pose proof Hop as (_ & _ & _ & Hgroups & new & Hprocs & Hone & Hok)%resolve_inv.
    assert (Hinst : installs st'
                    = installs st + length (filter (λ cmd, is_real_install cmd) new)).
    { unfold installs. by rewrite Hprocs, filter_app, length_app. }
    destruct r as [[]|e].
    + apply (unresolved_resolve g) in Hgroups; [|done]. lia.
    + assert (Hnone : filter (λ cmd, is_real_install cmd) new = []).
      { destruct (filter _ new) eqn:Hf; [done|]. by discriminate Hok. }
      rewrite Hnone in Hinst. cbn in Hinst.
      assert (unresolved st' = unresolved st); [|lia].
      apply unresolved_same. intros g'. unfold need_install_of. by rewrite Hgroups.
  - rewrite (resolve_noop g st Hflag) in Hop. by simplify_eq.
  - rewrite (resolve_dangling g st Hflag) in Hop. by simplify_eq.
Qed.

Lemma frugal___enter__ (g : gid) : frugal (__enter__ g).
Proof. by apply frugal_modify. Qed.

Lemma frugal___exit__ (g : gid) : frugal (__exit__ g).
Proof.
  intros st r st' Hop. unfold __exit__ in Hop. unfold_M.
  destruct (list_remove _ _); [|by simplify_eq].
  by apply frugal_lock in Hop.
Qed.

Lemma frugal___getattr__ (getattr0 : loc → string → M value) (self : loc) (attr : string) :
  (∀ obj a, frugal (getattr0 obj a)) → frugal (__getattr__ getattr0 self attr).
Proof.
  intros Hget. unfold __getattr__.
  apply frugal_bind; [apply frugal_get_module|intros _].
  apply frugal_bind; [by apply frugal_modify|intros _].
  apply frugal_bind; [apply Hget|intros spec].
  apply frugal_bind.
  { destruct spec; first [apply frugal_ret|apply frugal_raise]. }
  intros group. apply frugal_bind.
  { destruct group; [|apply frugal_raise].
    apply frugal_bind; [apply frugal_unlock|intros _; apply frugal_resolve]. }
  intros _. apply frugal_bind; [apply Hget|intros spec'].
  apply frugal_bind.
  { destruct spec'; first [apply frugal_ret|apply frugal_raise]. }
  intros fullname. apply frugal_bind; [apply frugal_import_module|intros real].
  apply frugal_bind; [by apply frugal_modify|intros _].
  apply frugal_bind; [apply frugal_get_module|intros o].
  apply frugal_bind; [by apply frugal_modify|intros _].
  apply Hget.
Qed.

Lemma frugal_getattr (depth : nat) (obj : loc) (attr : string) :
  frugal (getattr depth obj attr).
Proof.
  revert obj attr. induction depth as [|depth IH]; intros obj attr st r st' Hop;
    cbn [getattr] in Hop.
  - repeat split_match; by simplify_eq.
  - destruct (heap st !! obj) as [o|]; [|by simplify_eq].
    destruct (m_dict o !! attr); [by simplify_eq|].
    destruct (m_class o); [by simplify_eq|].
    by eapply frugal___getattr__.
Qed.

Lemma frugal_real_module (depth : nat) (module : value) :
  frugal (real_module depth module).
Proof.
  intros st r st' Hop. unfold real_module in Hop.
  destruct module; try (unfold_M; by simplify_eq).
  destruct (getattr depth m "__real_module__" st) as [r0 st0] eqn:Hget.
  apply frugal_getattr in Hget.
  destruct r0 as [v|[]]; by simplify_eq.
Qed.

Lemma run_call_frugal (c : call) (st : State) :
  installs (run_call c st) + unresolved (run_call c st)
  ≤ installs st + unresolved st + groups_made [c].
Proof.
  destruct c; cbn [run_call];
    [rewrite unresolved_init; unfold __init__, installs, groups_made;
     rewrite filter_cons_True by done; cbn; lia|..];
    match goal with |- context [(?op ?s).2] =>
      destruct (op s) as [r st'] eqn:Hop; cbn [snd] end;
    (etrans; [|apply Nat.le_add_r]).
  - by eapply frugal___enter__.
  - by eapply frugal___exit__.
  - by eapply frugal_register.
  - by eapply frugal_lock.
  - by eapply frugal_unlock.
  - by eapply frugal_resolve.
  - by eapply frugal_import_module.
  - by eapply frugal_getattr.
  - by eapply frugal_real_module.
Qed.

(** X18.  Over any sequence of calls into the module, in any order and
    whatever each call ends in, every real installation is paid for by a
    group whose [need_install] it clears: the installations asked for and
    the groups still unresolved never exceed those at the start plus the
    groups made since.  A program that starts with no group has asked for at
    most one real installation for each [LazyImportGroup] it made. *)
Theorem one_install_for_each_group (cs : list call) (st : State) :
  installs (run_calls cs st) + unresolved (run_calls cs st)
    ≤ installs st + unresolved st + groups_made cs ∧
  installs (run_calls cs initial) ≤ groups_made cs.
Proof.
  assert (Hgen : ∀ cs st,
    installs (run_calls cs st) + unresolved (run_calls cs st)
    ≤ installs st + unresolved st + groups_made cs).
  { clear cs st. intros cs. induction cs as [|c cs IH]; intros st.
    - cbn. lia.
    - change (run_calls (c :: cs) st) with (run_calls cs (run_call c st)).
      specialize (IH (run_call c st)). pose proof (run_call_frugal c st) as Hc.
      assert (Hmade : groups_made (c :: cs) = groups_made [c] + groups_made cs).
      { unfold groups_made. change (c :: cs) with ([c] ++ cs).
        by rewrite filter_app, length_app. }
      lia. }
  split; [apply Hgen|].
  specialize (Hgen cs initial).
  assert (Hzero : installs initial + unresolved initial = 0) by (vm_compute; reflexivity).
  lia.
Qed.

End frugal.

(** * The theorems on the example hosts *)

Ltac by_run :=
  repeat match goal with
         | |- pending _ _ _ _ _ => unfold pending
         | |- _ ∧ _ => split
         end;
  vm_compute; reflexivity.

(** Scenario A of the doctests: one dry run, one installation, the load, the
    attribute. *)
Example pak_dopak :
  getattr (H:=demo_host) 1 0 "dopak" locked_state = (Ok (VObject 7), used_state) ∧
  procs used_state =
    [ "pip" :: dry_run_args "/tmp/report" "/site/pak/requirements.txt";
      "pip" :: install_args "/site/pak/requirements.txt" ] ∧
  stdout used_state =
    [ "installing fuzzywuzzy==0.18.0 (Fuzzy string matching in python)" ].
Proof. by_run. Qed.


Lemma resolve_installs_at_most_once_witness :
  need_install_of 0 used_state = Some false ∧
  resolve (H:=demo_host) 0 used_state = (Ok tt, used_state) ∧
  installs (resolve_times (H:=demo_host) 3 0 unlocked_state) ≤ installs unlocked_state + 1 ∧
  need_install_of 0
    (run_calls (H:=demo_host)
       [CallEnter 0; CallImport "msgpack"; CallGetattr 1 3 "packb"; CallExit 0;
        CallResolve 0]
       used_state) = Some false.
Proof.
  assert (Hflag : need_install_of 0 used_state = Some false) by by_run.
  destruct (resolve_installs_at_most_once (H:=demo_host) 0 used_state 3)
    as (Hnoop & _ & _ & Hcalls).
  destruct (resolve_installs_at_most_once (H:=demo_host) 0 unlocked_state 3)
    as (_ & Hle & _).
  split; [exact Hflag|]. split; [by apply Hnoop|]. split; [exact Hle|by apply Hcalls].
Defined.

(** The call counted: three calls of [resolve()], one installation. *)
Example resolve_three_times :
  installs unlocked_state = 0 ∧
  installs (resolve_times (H:=demo_host) 3 0 unlocked_state) = 1.
Proof. by_run. Qed.



Lemma pip_returncode_unchecked_witness :
  same_but_returncode demo_host failing_host ∧
  resolve (H:=demo_host) 0 unlocked_state = resolve (H:=failing_host) 0 unlocked_state ∧
  (pip (H:=failing_host) (install_args "/site/pak/requirements.txt") initial).1 = Ok tt.
Proof.
  destruct pip_returncode_unchecked as (Hpip & Hsame & _).
  assert (Hhosts : same_but_returncode demo_host failing_host).
  { split_and!; try done. intros ps cmd. cbn. by destruct (is_dry_run cmd). }
  split; [exact Hhosts|]. split; [by apply Hsame|].
  rewrite (Hpip failing_host (install_args "/site/pak/requirements.txt") initial
             {| returncode := 1; written := ∅ |}); [done|by_run].
Defined.

(** The installation exits with status 1: [pip] returns, [resolve()]
    returns, and the group counts as resolved. *)
Lemma failed_install_raises_nothing :
  returncode <$> @host_run failing_host []
                   ("pip" :: install_args "/site/pak/requirements.txt") = Some 1%Z ∧
  (pip (H:=failing_host) (install_args "/site/pak/requirements.txt") initial).1 = Ok tt ∧
  (resolve (H:=failing_host) 0 unlocked_state).1 = Ok tt ∧
  procs (resolve (H:=failing_host) 0 unlocked_state).2 =
    [ "pip" :: dry_run_args "/tmp/report" "/site/pak/requirements.txt";
      "pip" :: install_args "/site/pak/requirements.txt" ] ∧
  need_install_of 0 (resolve (H:=failing_host) 0 unlocked_state).2 = Some false.
Proof. by_run. Qed.



Lemma lock_missing_member_KeyError_witness :
  sys_modules used_state !! "ghost" = None ∧
  ∃ k st', lock 0 used_state = (Raise (KeyError k), st') ∧
           k ∈ ["pak"; "ghost"] ∧ sys_modules used_state !! k = None.
Proof.
  split; [by_run|].
  apply (lock_missing_member_KeyError 0
           {| requires := "pak:requirements.txt"; name := None;
              modules := [("pak", 0); ("ghost", 1)]; need_install := false |}
           used_state "ghost" 1);
    [by_run|set_solver|by_run].
Defined.

(** The group is used as a scope a second time, after [pak.dopak]: leaving
    the scope raises [KeyError], where [unlock] on the same registry does
    not. *)
Example reentered_scope_KeyError :
  (with_ 0 (import_all (H:=demo_host) ["third"]) used_state).1
    = Raise (KeyError "ghost") ∧
  lock 0 used_state = (Raise (KeyError "ghost"), used_state) ∧
  unlock 0 used_state = (Ok tt, used_state).
Proof. by_run. Qed.

Lemma resolve_failure_leaves_group_witness :
  (resolve (H:=flaky_host) 0 unlocked_state).1 = Raise JSONDecodeError ∧
  need_install_of 0 (resolve (H:=flaky_host) 0 unlocked_state).2 = Some true ∧
  (resolve (H:=flaky_host) 0 (resolve (H:=flaky_host) 0 unlocked_state).2).1 = Ok tt.
Proof.
  destruct (resolve_failure_leaves_group (H:=flaky_host) 0 unlocked_state
              JSONDecodeError (resolve (H:=flaky_host) 0 unlocked_state).2 pak_group)
    as (_ & _ & _ & _ & Hflag); [by_run|by_run|].
  split; [by_run|]. split; [exact Hflag|by_run].
Defined.


Lemma real_module_after_first_use_witness :
  pending locked_state 0 pak_proxy (find_spec 0 "pak") 0 ∧
  getattr (H:=demo_host) 1 0 "dopak" locked_state = (Ok (VObject 7), used_state) ∧
  sys_modules locked_state !! "pak" ≠ Some (Loaded 0) ∧
  ∃ real, sys_modules used_state !! "pak" = Some (Loaded real) ∧ real ≠ 0 ∧
          real_module (H:=demo_host) 1 (VModule 0) used_state = (Ok (VModule real), used_state).
Proof.
  assert (Hpending : pending locked_state 0 pak_proxy (find_spec 0 "pak") 0) by by_run.
  assert (Hget : getattr (H:=demo_host) 1 0 "dopak" locked_state
                 = (Ok (VObject 7), used_state)) by by_run.
  assert (Hreg : sys_modules locked_state !! "pak" ≠ Some (Loaded 0))
    by (vm_compute; discriminate).
  destruct (real_module_after_first_use (H:=demo_host) 0 0 "dopak" locked_state
              (find_spec 0 "pak") 0 pak_proxy (VObject 7) used_state)
    as (real & real_obj & Hloaded & Hobj & _ & Hunwrap & Hdistinct);
    [exact Hpending|by_run|exact Hget|].
  split; [exact Hpending|]. split; [exact Hget|]. split; [exact Hreg|].
  exists real. split; [exact Hloaded|]. split; [by apply Hdistinct|].
  apply Hunwrap.
  assert (real = 2) as ->.
  { cbn [spec_name find_spec] in Hloaded.
    assert (H2 : sys_modules used_state !! "pak" = Some (Loaded 2)) by by_run.
    congruence. }
  assert (H2 : heap used_state !! 2 = Some
            {| m_class := ModuleType;
               m_dict := {[ "dopak" := VObject 7 ]}
                         ∪ init_module_attrs (host_spec "pak"
                             {| hm_is_package := true;
                                hm_body := {[ "dopak" := VObject 7 ]} |}) |})
    by by_run.
  rewrite H2 in Hobj. injection Hobj as <-. by_run.
Defined.

(** Two runs.  In the first the group, already resolved, is entered again
    and [msgpack] is used inside the scope: the module the load returns is
    the proxy itself.  In the second the real [pak] has its own
    [__real_module__]: [real_module(proxy)] is that attribute, not the module
    that was loaded. *)
Lemma proxy_can_be_its_own_real_module :
  ((m_class <$> heap reentered_state !! 3) = Some VeryLazyModule ∧
   sys_modules reentered_state !! "msgpack" = Some (Loaded 3) ∧
   (getattr (H:=demo_host) 1 3 "__real_module__" reentered_state).1 = Ok (VModule 3) ∧
   import_module (H:=demo_host) "msgpack"
     (getattr (H:=demo_host) 1 3 "__real_module__" reentered_state).2
     = (Ok 3, (getattr (H:=demo_host) 1 3 "__real_module__" reentered_state).2) ∧
   (real_module (H:=demo_host) 1 (VModule 3)
      (getattr (H:=demo_host) 1 3 "__real_module__" reentered_state).2).1
     = Ok (VModule 3)) ∧
  ((getattr (H:=colliding_host) 1 0 "dopak" locked_state).1 = Ok (VObject 7) ∧
   sys_modules (getattr (H:=colliding_host) 1 0 "dopak" locked_state).2 !! "pak"
     = Some (Loaded 2) ∧
   (real_module (H:=colliding_host) 1 (VModule 0)
      (getattr (H:=colliding_host) 1 0 "dopak" locked_state).2).1
     = Ok (VObject 9)).
Proof. by_run. Qed.



(** ** The further properties on the example hosts *)

Ltac by_decide := apply (bool_decide_unpack _); vm_compute; exact I.

Ltac for_each tac :=
  apply Forall_forall; repeat (constructor; [cbv beta; tac|]); constructor.

Lemma unlock_removes_halted_members_witness :
  groups locked_state !! 0 = Some pak_group ∧
  sys_modules locked_state !! "pak" = Some Halted ∧
  ∃ st', unlock 0 locked_state = (Ok tt, st') ∧ sys_modules st' !! "pak" = None.
Proof.
  assert (HG : groups locked_state !! 0 = Some pak_group) by by_run.
  destruct (unlock_removes_halted_members 0 pak_group locked_state HG)
    as (st' & Hu & _ & _ & _ & _ & Hreg).
  split; [exact HG|]. split; [by_run|]. exists st'. split; [exact Hu|].
  refine (eq_trans (Hreg "pak") _). by_run.
Defined.

Lemma unlock_idempotent_witness :
  let st' := (unlock 0 locked_state).2 in
  unlock 0 locked_state = (Ok tt, st') ∧ unlock 0 st' = (Ok tt, st').
Proof.
  intros st'. assert (Hu : unlock 0 locked_state = (Ok tt, st')) by by_run.
  split; [exact Hu|exact (unlock_idempotent 0 locked_state (Ok tt) st' Hu)].
Defined.

Lemma lock_halts_own_members_witness :
  groups inside_scope_state !! 0 = Some pak_group ∧
  sys_modules inside_scope_state !! "pak" = Some (Loaded 0) ∧
  ∃ st', lock 0 inside_scope_state = (Ok tt, st') ∧
         sys_modules st' !! "pak" = Some Halted.
Proof.
  assert (HG : groups inside_scope_state !! 0 = Some pak_group) by by_run.
  destruct (lock_halts_own_members 0 pak_group inside_scope_state HG)
    as (st' & Hl & _ & _ & _ & _ & Hreg).
  { for_each ltac:(eexists; by_run). }
  split; [exact HG|]. split; [by_run|]. exists st'. split; [exact Hl|].
  refine (eq_trans (Hreg "pak") _). by_run.
Defined.

Lemma lock_KeyError_keeps_earlier_witness :
  groups retried_state !! 0 = Some retried_group ∧
  sys_modules retried_state !! "pak" = Some (Loaded 2) ∧
  sys_modules retried_state !! "ghost" = None ∧
  ∃ st', lock 0 retried_state = (Raise (KeyError "ghost"), st') ∧
         sys_modules st' !! "pak" = Some Halted.
Proof.
  assert (HG : groups retried_state !! 0 = Some retried_group) by by_run.
  assert (Hpak : sys_modules retried_state !! "pak" = Some (Loaded 2)) by by_run.
  assert (Hghost : sys_modules retried_state !! "ghost" = None) by by_run.
  destruct (lock_KeyError_keeps_earlier 0 retried_group retried_state
              [("pak", 2)] [] "ghost" 1 HG eq_refl)
    as (st' & Hl & Hbefore & _); [|exact Hghost|].
  { for_each ltac:(eexists; exact Hpak). }
  split; [exact HG|]. split; [exact Hpak|]. split; [exact Hghost|].
  exists st'. split; [exact Hl|].
  apply (Hbefore "pak" 2); [apply elem_of_cons; by left|exact Hpak].
Defined.

Lemma lock_then_unlock_witness :
  let st1 := (lock 0 inside_scope_state).2 in
  lock 0 inside_scope_state = (Ok tt, st1) ∧
  sys_modules inside_scope_state !! "pak" = Some (Loaded 0) ∧
  ∃ st2, unlock 0 st1 = (Ok tt, st2) ∧ sys_modules st2 !! "pak" = None.
Proof.
  intros st1.
  assert (Hl : lock 0 inside_scope_state = (Ok tt, st1)) by by_run.
  destruct (lock_then_unlock 0 pak_group inside_scope_state st1) as (st2 & Hu & Hreg);
    [by_run|exact Hl|].
  split; [exact Hl|]. split; [by_run|]. exists st2. split; [exact Hu|].
  refine (eq_trans (Hreg "pak") _). by_run.
Defined.

Lemma lock_again_changes_nothing_witness :
  let st1 := (lock 0 inside_scope_state).2 in
  lock 0 inside_scope_state = (Ok tt, st1) ∧ lock 0 st1 = (Ok tt, st1).
Proof.
  intros st1.
  assert (Hl : lock 0 inside_scope_state = (Ok tt, st1)) by by_run.
  split; [exact Hl|exact (lock_again_changes_nothing 0 inside_scope_state st1 Hl)].
Defined.

Lemma exit_without_enter_witness :
  sys_meta_path locked_state = [PathFinder] ∧
  __exit__ 0 locked_state = (Raise ValueError, locked_state).
Proof.
  split; [by_run|]. apply exit_without_enter. by_decide.
Defined.

Lemma exit_removes_own_finder_witness :
  sys_meta_path nested_state = [VeryLazyFinder 1; VeryLazyFinder 0; PathFinder] ∧
  (__exit__ 0 nested_state).1 = Ok tt ∧
  sys_meta_path (__exit__ 0 nested_state).2 = [VeryLazyFinder 1; PathFinder].
Proof.
  assert (Hmp : sys_meta_path nested_state
                = [VeryLazyFinder 1] ++ VeryLazyFinder 0 :: [PathFinder]) by by_run.
  destruct (exit_removes_own_finder 0 nested_state [VeryLazyFinder 1] [PathFinder] Hmp)
    as [_ Hleft]; [by_decide|].
  split; [exact Hmp|]. split; [by_run|exact Hleft].
Defined.

Lemma import_inside_scope_makes_proxy_witness :
  sys_meta_path inside_scope_state = [VeryLazyFinder 0; PathFinder] ∧
  sys_modules inside_scope_state !! "numpy" = None ∧
  ∃ m st', (∀ H' : Host, @import_module H' "numpy" inside_scope_state = (Ok m, st')) ∧
           sys_modules st' !! "numpy" = Some (Loaded m).
Proof.
  assert (Hmp : sys_meta_path inside_scope_state = [VeryLazyFinder 0; PathFinder])
    by by_run.
  assert (Hnone : sys_modules inside_scope_state !! "numpy" = None) by by_run.
  destruct (import_inside_scope_makes_proxy (H:=demo_host) 0 pak_group [PathFinder]
              "numpy" inside_scope_state eq_refl Hmp)
    as (m & o & st' & _ & _ & _ & _ & Hreg & _ & _ & _ & _ & Hany); [by_run|exact Hnone|].
  split; [exact Hmp|]. split; [exact Hnone|]. exists m, st'. split; [exact Hany|].
  refine (eq_trans (f_equal (λ reg, reg !! "numpy") Hreg) _). apply lookup_insert_eq.
Defined.

Lemma scope_of_fresh_group_witness :
  let st := (__init__ "pak:requirements.txt" None initial).2 in
  groups st !! 0 = Some (fresh_group "pak:requirements.txt") ∧
  ∃ st', with_ 0 (import_all (H:=demo_host) ["pak"; "ghost"]) st = (Ok tt, st') ∧
         sys_meta_path st' = sys_meta_path st ∧
         sys_modules st' !! "ghost" = Some Halted.
Proof.
  intros st.
  assert (HG : groups st !! 0 = Some (fresh_group "pak:requirements.txt")) by by_run.
  destruct (scope_of_fresh_group (H:=demo_host) 0 (fresh_group "pak:requirements.txt")
              ["pak"; "ghost"] st HG eq_refl)
    as (st' & Hwith & Hmp & _ & Hnames).
  { for_each ltac:(reflexivity). }
  { for_each by_run. }
  split; [exact HG|]. exists st'. split; [exact Hwith|]. split; [exact Hmp|].
  apply (Hnames "ghost"). apply elem_of_cons. right. apply elem_of_cons. by left.
Defined.



Lemma resolve_cuts_locator_at_last_colon_witness :
  let st := (__init__ "a:b:c.txt" None initial).2 in
  groups st !! 0 = Some (fresh_group "a:b:c.txt") ∧
  @host_find_spec odd_host "a" = None ∧
  @host_locate odd_host "a:b" "c.txt" = None ∧
  resolve (H:=odd_host) 0 st = (Raise (ResourceError "a:b" "c.txt"), st).
Proof.
  intros st.
  assert (HG : groups st !! 0 = Some (fresh_group "a:b:c.txt")) by by_run.
  destruct (resolve_cuts_locator_at_last_colon (H:=odd_host) 0 (fresh_group "a:b:c.txt")
              st "a:b" "c.txt" HG eq_refl eq_refl eq_refl) as [Hcut _].
  destruct (Hcut eq_refl) as [_ Hres].
  split; [exact HG|]. split; [by_run|]. split; [by_run|].
  apply (Hres (host_spec "a:b" {| hm_is_package := true; hm_body := ∅ |})); by_run.
Defined.

Lemma first_use_in_resolved_group_runs_nothing_witness :
  let r := getattr (H:=demo_host) 1 1 "x" used_state in
  pending used_state 1 ghost_proxy (find_spec 0 "ghost") 0 ∧
  need_install_of 0 used_state = Some false ∧
  r.1 = Raise (ModuleNotFoundError "ghost") ∧
  procs r.2 = procs used_state.
Proof.
  intros r.
  assert (Hpending : pending used_state 1 ghost_proxy (find_spec 0 "ghost") 0) by by_run.
  assert (Hflag : need_install_of 0 used_state = Some false) by by_run.
  destruct (first_use_in_resolved_group_runs_nothing (H:=demo_host) 0 1 "x" used_state
              (find_spec 0 "ghost") 0 ghost_proxy r.1 r.2 Hpending) as [Hprocs _];
    [by_run|exact Hflag|by_run|].
  split; [exact Hpending|]. split; [exact Hflag|]. split; [by_run|exact Hprocs].
Defined.

Lemma first_use_leaves_other_groups_witness :
  let r := getattr (H:=demo_host) 1 0 "dopak" two_groups_state in
  r.1 = Ok (VObject 7) ∧
  need_install_of 0 r.2 = Some false ∧
  sys_modules two_groups_state !! "other" = Some Halted ∧
  sys_modules r.2 !! "other" = Some Halted ∧
  need_install_of 1 r.2 = need_install_of 1 two_groups_state.
Proof.
  intros r.
  assert (Hother : sys_modules two_groups_state !! "other" = Some Halted) by by_run.
  destruct (first_use_leaves_other_groups (H:=demo_host) 0 0 "dopak" two_groups_state
              (find_spec 0 "pak") 0
              {| requires := "pak:requirements.txt"; name := None;
                 modules := [("pak", 0)]; need_install := true |}
              pak_proxy r.1 r.2) as [Hreg Hflags]; [by_run..|].
  split; [by_run|]. split; [by_run|]. split; [exact Hother|].
  split; [apply Hreg; [by_decide|exact Hother]|].
  apply Hflags. discriminate.
Defined.

